(** * The experiences data-access layer ([src/lib/data/index.ts])

    A shallow embedding of the record mapper, the local fallback store, the
    remote accessors and the stateful manager, followed by the properties
    that the specification states about them.

    JavaScript values are a tree type; numbers are IEEE binary64 floats.
    Effects (remote requests, [localStorage], console, toasts, React state)
    are threaded through an explicit [World]; exceptions are completions.
    Everything the module imports from outside ([supabase], [JSON],
    [Number] on strings, the printing of numbers, [./categories],
    [./experiences]) is a field of a
    [Host] record, the way a test would inject it. *)

From Stdlib Require Import PrimFloat.
From stdpp Require Import base option list strings pretty gmap.

Local Open Scope string_scope.

(** ** JavaScript values *)

#[local] Set Warnings "-register-all".

Inductive JsVal : Type :=
  | VUndefined
  | VNull
  | VBool (b : bool)
  | VNum (x : float)
  | VStr (s : string)
  | VArr (elems : list JsVal)
  | VObj (props : list (string * JsVal)).

(** What a [throw] carries: an instance of [Error] (TypeError, SyntaxError,
    DOMException, ...) or any other value, such as the [error] member of a
    remote response. *)
Inductive Exn : Type :=
  | NativeError (name message : string)
  | ThrownValue (v : JsVal).

Inductive Completion (A : Type) : Type :=
  | Normal (a : A)
  | Throw (e : Exn).
Arguments Normal {A} a.
Arguments Throw {A} e.

#[global] Instance completion_ret : MRet Completion := @Normal.
#[global] Instance completion_bind : MBind Completion :=
  λ A B f c, match c with Normal a => f a | Throw e => Throw e end.
#[global] Instance completion_fmap : FMap Completion :=
  λ A B f c, match c with Normal a => Normal (f a) | Throw e => Throw e end.

Definition TypeError (message : string) : Exn := NativeError "TypeError" message.

(** [ToBoolean]: the falsy values are undefined, null, false, 0, -0, NaN
    and the empty string. *)
Definition ToBoolean (v : JsVal) : bool :=
  match v with
  | VUndefined | VNull => false
  | VBool b => b
  | VNum x => negb (PrimFloat.is_zero x || PrimFloat.is_nan x)
  | VStr s => negb (String.eqb s "")
  | VArr _ | VObj _ => true
  end.

(** [a || b] *)
Definition js_or (a b : JsVal) : JsVal := if ToBoolean a then a else b.

Definition is_undefined (v : JsVal) : bool :=
  match v with VUndefined => true | _ => false end.

Definition is_nullish (v : JsVal) : bool :=
  match v with VUndefined | VNull => true | _ => false end.

Definition isArray (v : JsVal) : bool :=
  match v with VArr _ => true | _ => false end.

Definition is_boolean (v : JsVal) : bool :=
  match v with VBool _ => true | _ => false end.

(** [v === s] for a string [s] *)
Definition strict_eq_str (v : JsVal) (s : string) : bool :=
  match v with VStr t => String.eqb t s | _ => false end.

(** Own properties are kept in insertion order.  When a key is bound more
    than once the last binding is the property, as in an object literal or
    a JSON text that repeats a key. *)
Fixpoint own (k : string) (ps : list (string * JsVal)) : option JsVal :=
  match ps with
  | [] => None
  | (k', v) :: ps' =>
      match own k ps' with
      | Some v' => Some v'
      | None => if String.eqb k' k then Some v else None
      end
  end.

(** [o[k] = v] on the property list: an existing key keeps its place, a
    new key goes last. *)
Definition put (k : string) (v : JsVal) (ps : list (string * JsVal))
  : list (string * JsVal) :=
  match own k ps with
  | Some _ => map (λ kv, if String.eqb kv.1 k then (k, v) else kv) ps
  | None => ps ++ [(k, v)]
  end.

(** [v.k] for the data field names this module reads (none of them is an
    index, [length] or a member of a built-in prototype).  [prop] is the
    value read from a value that is neither undefined nor null: a missing
    property, or any property of a primitive or an array, is undefined.
    Reading a property of undefined or null throws. *)
Definition prop (v : JsVal) (k : string) : JsVal :=
  match v with
  | VObj ps => default VUndefined (own k ps)
  | _ => VUndefined
  end.

Definition get (v : JsVal) (k : string) : Completion JsVal :=
  if is_nullish v
  then Throw (TypeError ("Cannot read properties of nullish (reading '" ++ k ++ "')"))
  else Normal (prop v k).

(** The own enumerable properties copied by an object spread [{...v}]. *)
Definition indexed (l : list JsVal) : list (string * JsVal) :=
  imap (λ i x, (pretty i, x)) l.

Fixpoint chars (s : string) : list JsVal :=
  match s with
  | EmptyString => []
  | String c s' => VStr (String c EmptyString) :: chars s'
  end.

Definition spread_props (v : JsVal) : list (string * JsVal) :=
  match v with
  | VObj ps => ps
  | VArr l => indexed l
  | VStr s => indexed (chars s)
  | _ => []
  end.

(** [{...a, ...b}] *)
Definition assign (target src : list (string * JsVal)) : list (string * JsVal) :=
  fold_left (λ acc kv, put kv.1 kv.2 acc) src target.

Definition spread2 (a b : JsVal) : JsVal :=
  VObj (assign (assign [] (spread_props a)) (spread_props b)).

(** Array methods with a callback that may throw.  The receiver must be an
    array: no other value of this model carries a callable [map], [filter]
    or [find]. *)
Fixpoint mapM_c {A B} (f : A → Completion B) (l : list A) : Completion (list B) :=
  match l with
  | [] => Normal []
  | x :: l' => y ← f x; ys ← mapM_c f l'; Normal (y :: ys)
  end.

Fixpoint filterM_c {A} (f : A → Completion bool) (l : list A) : Completion (list A) :=
  match l with
  | [] => Normal []
  | x :: l' => b ← f x; ys ← filterM_c f l'; Normal (if (b : bool) then x :: ys else ys)
  end.

Fixpoint findM_c {A} (f : A → Completion bool) (l : list A) : Completion (option A) :=
  match l with
  | [] => Normal None
  | x :: l' => b ← f x; if (b : bool) then Normal (Some x) else findM_c f l'
  end.

Definition not_a_function (v : JsVal) (method : string) : Exn :=
  if is_nullish v
  then TypeError ("Cannot read properties of nullish (reading '" ++ method ++ "')")
  else TypeError (method ++ " is not a function").

Definition js_map (f : JsVal → Completion JsVal) (v : JsVal) : Completion JsVal :=
  match v with
  | VArr l => VArr <$> mapM_c f l
  | _ => Throw (not_a_function v "map")
  end.

Definition js_filter (f : JsVal → Completion bool) (v : JsVal) : Completion JsVal :=
  match v with
  | VArr l => VArr <$> filterM_c f l
  | _ => Throw (not_a_function v "filter")
  end.

(** [v.find(f) || null]: the found element when it is truthy, else null. *)
Definition js_find_or_null (f : JsVal → Completion bool) (v : JsVal) : Completion JsVal :=
  match v with
  | VArr l => r ← findM_c f l; Normal (js_or (default VUndefined r) VNull)
  | _ => Throw (not_a_function v "find")
  end.

(** ** The environment *)

(** Requests on the single remote table ['experiences'], as the query
    builder chains them. *)
Inductive Filter : Type :=
  | NoFilter
  | Eq (column : string) (v : JsVal)
  | ILike (column pattern : string).

Inductive Cardinality : Type := Rows | MaybeSingle | Single.

Inductive Request : Type :=
  | Select (columns : string) (f : Filter) (c : Cardinality)
  | Insert (payload : JsVal) (returning : option (string * Cardinality))
  | Update (payload : JsVal) (f : Filter)
  | Delete (f : Filter).

(** The awaited [{ data, error }]; [error] is [ThrownValue VNull] when the
    client reports none. *)
Record Response : Type := { data : JsVal; error : Exn }.

Definition exn_truthy (e : Exn) : bool :=
  match e with
  | NativeError _ _ => true
  | ThrownValue v => ToBoolean v
  end.

(** Modelled from the spec: the entries of [./categories], a module that
    is not among the sources.  Section 6 describes them as [{id, name}]
    pairs; lines 385 and 394 read [cat.id] and [categoryObj.name]. *)
Record Category : Type := { cat_id : string; cat_name : string }.

(** What the module imports.  [supabase] (the client of [@/lib/supabase])
    answers a request given the requests issued before it (latest first),
    and may reject.  [categories] and [experiences] are the lists exported
    by [./categories] and [./experiences]; the remaining fields are
    built-ins of the JavaScript host. *)
Record Host : Type := {
  supabase : list Request → Request → Completion Response;
  JSON_parse : string → Completion JsVal;
  JSON_stringify : JsVal → option nat → string;
  StringToNumber : string → float;
  NumberToString : float → string;
  toLowerCase : string → string;
  quota_ok : gmap string string → bool;
  categories : list Category;
  experiences : JsVal
}.

Inductive ToastKind : Type := ToastSuccess | ToastError.

Inductive StorageOp : Type :=
  | GetItem (key : string)
  | SetItem (key value : string).

(** Everything the module can observe or change.  The last four fields
    are the React state of [useExperiencesManager]. *)
Record World : Type := {
  requests : list Request;
  ls_denied : bool;
  ls_items : gmap string string;
  ls_log : list StorageOp;
  console : list (string * Exn);
  toasts : list (ToastKind * string);
  state_experiences : JsVal;
  state_isLoading : bool;
  state_error : option string;
  render_error : option Exn
}.

Definition with_requests (r : list Request) (w : World) : World :=
  {| requests := r; ls_denied := ls_denied w; ls_items := ls_items w;
     ls_log := ls_log w; console := console w; toasts := toasts w;
     state_experiences := state_experiences w;
     state_isLoading := state_isLoading w; state_error := state_error w;
     render_error := render_error w |}.

Definition with_storage (items : gmap string string) (log : list StorageOp)
    (w : World) : World :=
  {| requests := requests w; ls_denied := ls_denied w; ls_items := items;
     ls_log := log; console := console w; toasts := toasts w;
     state_experiences := state_experiences w;
     state_isLoading := state_isLoading w; state_error := state_error w;
     render_error := render_error w |}.

Definition with_console (c : list (string * Exn)) (w : World) : World :=
  {| requests := requests w; ls_denied := ls_denied w; ls_items := ls_items w;
     ls_log := ls_log w; console := c; toasts := toasts w;
     state_experiences := state_experiences w;
     state_isLoading := state_isLoading w; state_error := state_error w;
     render_error := render_error w |}.

Definition with_toasts (t : list (ToastKind * string)) (w : World) : World :=
  {| requests := requests w; ls_denied := ls_denied w; ls_items := ls_items w;
     ls_log := ls_log w; console := console w; toasts := t;
     state_experiences := state_experiences w;
     state_isLoading := state_isLoading w; state_error := state_error w;
     render_error := render_error w |}.

Definition with_experiences (v : JsVal) (w : World) : World :=
  {| requests := requests w; ls_denied := ls_denied w; ls_items := ls_items w;
     ls_log := ls_log w; console := console w; toasts := toasts w;
     state_experiences := v;
     state_isLoading := state_isLoading w; state_error := state_error w;
     render_error := render_error w |}.

Definition with_isLoading (b : bool) (w : World) : World :=
  {| requests := requests w; ls_denied := ls_denied w; ls_items := ls_items w;
     ls_log := ls_log w; console := console w; toasts := toasts w;
     state_experiences := state_experiences w;
     state_isLoading := b; state_error := state_error w;
     render_error := render_error w |}.

Definition with_error (e : option string) (w : World) : World :=
  {| requests := requests w; ls_denied := ls_denied w; ls_items := ls_items w;
     ls_log := ls_log w; console := console w; toasts := toasts w;
     state_experiences := state_experiences w;
     state_isLoading := state_isLoading w; state_error := e;
     render_error := render_error w |}.

Definition with_render_error (e : option Exn) (w : World) : World :=
  {| requests := requests w; ls_denied := ls_denied w; ls_items := ls_items w;
     ls_log := ls_log w; console := console w; toasts := toasts w;
     state_experiences := state_experiences w;
     state_isLoading := state_isLoading w; state_error := state_error w;
     render_error := e |}.

(** ** Effectful code: a state and exception monad over [World] *)

Definition M (A : Type) : Type := World → Completion A * World.

#[global] Instance M_ret : MRet M := λ A a w, (Normal a, w).
#[global] Instance M_bind : MBind M :=
  λ A B f m w,
    match m w with
    | (Normal a, w') => f a w'
    | (Throw e, w') => (Throw e, w')
    end.

Definition throw {A} (e : Exn) : M A := λ w, (Throw e, w).

Definition lift {A} (c : Completion A) : M A := λ w, (c, w).

(** [try { body } catch (e) { handler e }] *)
Definition try_catch {A} (body : M A) (handler : Exn → M A) : M A :=
  λ w,
    match body w with
    | (Normal a, w') => (Normal a, w')
    | (Throw e, w') => handler e w'
    end.

(** [try { body } finally { fin }]: [fin] always runs; when it completes
    normally the completion of [body] stands. *)
Definition try_finally {A} (body : M A) (fin : M unit) : M A :=
  λ w,
    match body w with
    | (c, w') =>
        match fin w' with
        | (Normal _, w'') => (c, w'')
        | (Throw e, w'') => (Throw e, w'')
        end
    end.

(** [if (error) throw error] *)
Definition throw_if (e : Exn) : M unit :=
  if exn_truthy e then throw e else mret ().

Definition console_error (message : string) (e : Exn) : M unit :=
  λ w, (Normal (), with_console ((message, e) :: console w) w).

Definition toast_error (message : string) : M unit :=
  λ w, (Normal (), with_toasts ((ToastError, message) :: toasts w) w).

Definition toast_success (message : string) : M unit :=
  λ w, (Normal (), with_toasts ((ToastSuccess, message) :: toasts w) w).

Definition setExperiences (v : JsVal) : M unit :=
  λ w, (Normal (), with_experiences v w).

(** [setExperiences(prev => f prev)].  An updater that throws does so in
    React's render phase, not in the caller: the state is kept and the
    error recorded. *)
Definition updateExperiences (f : JsVal → Completion JsVal) : M unit :=
  λ w,
    match f (state_experiences w) with
    | Normal v => (Normal (), with_experiences v w)
    | Throw e => (Normal (), with_render_error (Some e) w)
    end.

Definition setIsLoading (b : bool) : M unit :=
  λ w, (Normal (), with_isLoading b w).

Definition setError (e : option string) : M unit :=
  λ w, (Normal (), with_error e w).

(** [localStorage.getItem] and [localStorage.setItem]: access may be
    denied, and a write over quota throws. *)
Definition SecurityError : Exn :=
  NativeError "SecurityError" "The operation is insecure.".

Definition QuotaExceededError : Exn :=
  NativeError "QuotaExceededError" "The quota has been exceeded.".

Definition localStorage_getItem (key : string) : M (option string) :=
  λ w,
    let w' := with_storage (ls_items w) (GetItem key :: ls_log w) w in
    if ls_denied w then (Throw SecurityError, w')
    else (Normal (ls_items w !! key), w').

Definition localStorage_setItem (h : Host) (key value : string) : M unit :=
  λ w,
    let log := SetItem key value :: ls_log w in
    if ls_denied w then (Throw SecurityError, with_storage (ls_items w) log w)
    else if quota_ok h (<[key:=value]> (ls_items w))
    then (Normal (), with_storage (<[key:=value]> (ls_items w)) log w)
    else (Throw QuotaExceededError, with_storage (ls_items w) log w).

(** [await supabase.from('experiences')...]: the request is recorded and
    answered by the host. *)
Definition await (h : Host) (q : Request) : M Response :=
  λ w, (supabase h (requests w) q, with_requests (q :: requests w) w).

(** [ToString].  No value of this model is callable, so an object with
    an own [toString] property has no string form and the conversion
    throws; any other object is printed by [Object.prototype.toString].
    An array is joined with commas, undefined and null elements printing as
    the empty string. *)
Definition cannot_convert : Exn :=
  TypeError "Cannot convert object to primitive value".

Fixpoint ToString (h : Host) (v : JsVal) : Completion string :=
  match v with
  | VUndefined => Normal "undefined"
  | VNull => Normal "null"
  | VBool b => Normal (if b then "true" else "false")
  | VNum x => Normal (NumberToString h x)
  | VStr s => Normal s
  | VArr l =>
      String.concat "," <$>
        mapM_c (λ x, if is_nullish x then Normal "" else ToString h x) l
  | VObj ps =>
      match own "toString" ps with
      | Some _ => Throw cannot_convert
      | None => Normal "[object Object]"
      end
  end.

(** [ToNumber]; an array or an object goes through its string form, for
    [valueOf] is inherited and returns the object itself. *)
Definition ToNumber (h : Host) (v : JsVal) : Completion float :=
  match v with
  | VUndefined => Normal PrimFloat.nan
  | VNull => Normal PrimFloat.zero
  | VBool b => Normal (if b then PrimFloat.one else PrimFloat.zero)
  | VNum x => Normal x
  | VStr s => Normal (StringToNumber h s)
  | VArr _ | VObj _ => s ← ToString h v; Normal (StringToNumber h s)
  end.

(** [Number(v)] *)
Definition Number (h : Host) (v : JsVal) : Completion JsVal := VNum <$> ToNumber h v.

(** [v.length > 0] *)
Definition length_gt0 (h : Host) (v : JsVal) : Completion bool :=
  match v with
  | VUndefined | VNull => Throw (TypeError "Cannot read properties of nullish (reading 'length')")
  | VArr l => Normal (match l with [] => false | _ :: _ => true end)
  | VStr s => Normal (negb (String.eqb s ""))
  | VObj ps =>
      n ← ToNumber h (default VUndefined (own "length" ps));
      Normal (PrimFloat.ltb PrimFloat.zero n)
  | _ => Normal false
  end.

(** [v.length === 0] *)
Definition length_is0 (v : JsVal) : Completion bool :=
  match v with
  | VUndefined | VNull => Throw (TypeError "Cannot read properties of nullish (reading 'length')")
  | VArr l => Normal (match l with [] => true | _ :: _ => false end)
  | VStr s => Normal (String.eqb s "")
  | VObj ps =>
      Normal (match own "length" ps with
              | Some (VNum x) => PrimFloat.is_zero x
              | _ => false
              end)
  | _ => Normal false
  end.

(** [[...prev, x]] *)
Definition append_one (x : JsVal) (prev : JsVal) : Completion JsVal :=
  match prev with
  | VArr l => Normal (VArr (l ++ [x]))
  | VStr s => Normal (VArr (chars s ++ [x]))
  | _ => Throw (TypeError "prev is not iterable")
  end.

(** The [{ success, message }] result of import and reset. *)
Definition result (success : bool) (message : string) : JsVal :=
  VObj [("success", VBool success); ("message", VStr message)].

(** The column list every select passes. *)
Definition COLUMNS : string :=
  "id, title, description, image_url, price, location, latitude, longitude, duration, participants, date, category, niche_category, exp_type, trending, featured, romantic, adventurous, group_activity".

(** ** The module *)

Section Program.
Context (h : Host).

(** Lines 13-21. *)
Definition getSavedExperiences : M JsVal :=
  try_catch
    (saved ← localStorage_getItem "experiences";
     match saved with
     | Some s =>
         if String.eqb s "" then mret (experiences h) else lift (JSON_parse h s)
     | None => mret (experiences h)
     end)
    (λ error,
       console_error "Error retrieving saved experiences:" error;;
       mret (experiences h)).

(** [item.c ? Number(item.c) : undefined], lines 31 and 32. *)
Definition coordinate (item : JsVal) (c : string) : Completion JsVal :=
  v ← get item c;
  if ToBoolean v then Number h v else Normal VUndefined.

(** Lines 24-44. *)
Definition mapDbExperienceToModel (item : JsVal) : Completion JsVal :=
  id ← get item "id";
  title ← get item "title";
  description ← get item "description";
  image_url ← get item "image_url";
  price ← get item "price";
  location ← get item "location";
  latitude ← coordinate item "latitude";
  longitude ← coordinate item "longitude";
  duration ← get item "duration";
  participants ← get item "participants";
  date ← get item "date";
  category ← get item "category";
  niche_category ← get item "niche_category";
  exp_type ← get item "exp_type";
  trending ← get item "trending";
  featured ← get item "featured";
  romantic ← get item "romantic";
  adventurous ← get item "adventurous";
  group_activity ← get item "group_activity";
  Normal (VObj [
    ("id", id);
    ("title", title);
    ("description", description);
    ("imageUrl", image_url);
    ("price", price);
    ("location", location);
    ("latitude", latitude);
    ("longitude", longitude);
    ("duration", duration);
    ("participants", participants);
    ("date", date);
    ("category", category);
    ("nicheCategory", niche_category);
    ("exp_type", js_or exp_type (VArr []));
    ("trending", js_or trending (VBool false));
    ("featured", js_or featured (VBool false));
    ("romantic", js_or romantic (VBool false));
    ("adventurous", js_or adventurous (VBool false));
    ("group", js_or group_activity (VBool false))
  ]).

(** Lines 53-88: the effect run on mount. *)
Definition fetchExperiences : M unit :=
  setIsLoading true;;
  setError None;;
  try_finally
    (try_catch
       (r ← await h (Select COLUMNS NoFilter Rows);
        throw_if (error r);;
        mappedExperiences ← lift (js_map mapDbExperienceToModel (data r));
        setExperiences mappedExperiences;;
        localStorage_setItem h "experiences" (JSON_stringify h mappedExperiences None))
       (λ err,
          console_error "Error fetching experiences:" err;;
          setError (Some "Failed to load experiences");;
          saved ← getSavedExperiences;
          positive ← lift (length_gt0 h saved);
          if (positive : bool) then setExperiences saved else mret ()))
    (setIsLoading false).

(** The row literal of lines 96-113, written again at lines 203-220. *)
Definition insertPayload (experience : JsVal) : Completion JsVal :=
  title ← get experience "title";
  description ← get experience "description";
  imageUrl ← get experience "imageUrl";
  price ← get experience "price";
  location ← get experience "location";
  duration ← get experience "duration";
  participants ← get experience "participants";
  date ← get experience "date";
  category ← get experience "category";
  nicheCategory ← get experience "nicheCategory";
  exp_type ← get experience "exp_type";
  trending ← get experience "trending";
  featured ← get experience "featured";
  romantic ← get experience "romantic";
  adventurous ← get experience "adventurous";
  group ← get experience "group";
  Normal (VObj [
    ("title", title);
    ("description", description);
    ("image_url", imageUrl);
    ("price", price);
    ("location", location);
    ("duration", duration);
    ("participants", participants);
    ("date", date);
    ("category", category);
    ("niche_category", nicheCategory);
    ("exp_type", exp_type);
    ("trending", js_or trending (VBool false));
    ("featured", js_or featured (VBool false));
    ("romantic", js_or romantic (VBool false));
    ("adventurous", js_or adventurous (VBool false));
    ("group_activity", js_or group (VBool false))
  ]).

(** Lines 91-129. *)
Definition addExperience (experience : JsVal) : M JsVal :=
  try_catch
    (payload ← lift (insertPayload experience);
     r ← await h (Insert payload (Some ("*", Single)));
     throw_if (error r);;
     newExperience ← lift (mapDbExperienceToModel (data r));
     updateExperiences (append_one newExperience);;
     mret newExperience)
    (λ err,
       console_error "Error adding experience:" err;;
       toast_error "Failed to add experience";;
       throw err).

(** [if (updates.field !== undefined) updateData.column = updates.field] *)
Definition set_if_defined (updates : JsVal) (field column : string)
    (updateData : list (string * JsVal)) : Completion (list (string * JsVal)) :=
  v ← get updates field;
  Normal (if is_undefined v then updateData else put column v updateData).

(** Lines 135-152. *)
Definition updatePayload (updates : JsVal) : Completion JsVal :=
  d ← set_if_defined updates "title" "title" [];
  d ← set_if_defined updates "description" "description" d;
  d ← set_if_defined updates "imageUrl" "image_url" d;
  d ← set_if_defined updates "price" "price" d;
  d ← set_if_defined updates "location" "location" d;
  d ← set_if_defined updates "duration" "duration" d;
  d ← set_if_defined updates "participants" "participants" d;
  d ← set_if_defined updates "date" "date" d;
  d ← set_if_defined updates "category" "category" d;
  d ← set_if_defined updates "nicheCategory" "niche_category" d;
  d ← set_if_defined updates "exp_type" "exp_type" d;
  d ← set_if_defined updates "trending" "trending" d;
  d ← set_if_defined updates "featured" "featured" d;
  d ← set_if_defined updates "romantic" "romantic" d;
  d ← set_if_defined updates "adventurous" "adventurous" d;
  d ← set_if_defined updates "group" "group_activity" d;
  Normal (VObj d).

(** [exp => (exp.id === id ? { ...exp, ...updates } : exp)] *)
Definition mergeById (id : string) (updates : JsVal) (exp : JsVal) : Completion JsVal :=
  exp_id ← get exp "id";
  Normal (if strict_eq_str exp_id id then spread2 exp updates else exp).

(** Lines 132-171. *)
Definition updateExperience (id : string) (updates : JsVal) : M unit :=
  try_catch
    (updateData ← lift (updatePayload updates);
     r ← await h (Update updateData (Eq "id" (VStr id)));
     throw_if (error r);;
     updateExperiences (js_map (mergeById id updates)))
    (λ err,
       console_error "Error updating experience:" err;;
       toast_error "Failed to update experience";;
       throw err).

(** Lines 174-191. *)
Definition deleteExperience (id : string) : M unit :=
  try_catch
    (r ← await h (Delete (Eq "id" (VStr id)));
     throw_if (error r);;
     updateExperiences
       (js_filter (λ exp, exp_id ← get exp "id"; Normal (negb (strict_eq_str exp_id id)))))
    (λ err,
       console_error "Error deleting experience:" err;;
       toast_error "Failed to delete experience";;
       throw err).

(** [error instanceof Error ? error.message : 'Unknown error'] *)
Definition error_message (e : Exn) : string :=
  match e with
  | NativeError _ message => message
  | ThrownValue _ => "Unknown error"
  end.

(** Lines 194-252. *)
Definition importExperiences (jsonString : string) : M JsVal :=
  try_catch
    (importedExperiences ← lift (JSON_parse h jsonString);
     if negb (isArray importedExperiences)
     then mret (result false "Invalid format: expected an array")
     else
       experiencesToInsert ← lift (js_map insertPayload importedExperiences);
       r ← await h (Insert experiencesToInsert None);
       throw_if (error r);;
       r' ← await h (Select COLUMNS NoFilter Rows);
       throw_if (error r');;
       mappedExperiences ← lift (js_map mapDbExperienceToModel (data r'));
       setExperiences mappedExperiences;;
       mret (result true "Experiences imported successfully"))
    (λ error,
       console_error "Error importing experiences:" error;;
       mret (result false ("Error importing: " ++ error_message error))).

(** Lines 255-274. *)
Definition exportExperiences : M string :=
  try_catch
    (r ← await h (Select COLUMNS NoFilter Rows);
     throw_if (error r);;
     exportData ← lift (js_map mapDbExperienceToModel (data r));
     mret (JSON_stringify h exportData (Some 2)))
    (λ err,
       console_error "Error exporting experiences:" err;;
       toast_error "Failed to export experiences";;
       throw err).

(** Lines 277-286. *)
Definition resetExperiences : M JsVal :=
  try_catch
    (toast_success "Experiences have been reset";;
     mret (result true "Experiences have been reset"))
    (λ err,
       console_error "Error resetting experiences:" err;;
       toast_error "Failed to reset experiences";;
       throw err).

(** Lines 302-317. *)
Definition getAllExperiences : M JsVal :=
  try_catch
    (r ← await h (Select COLUMNS NoFilter Rows);
     throw_if (error r);;
     lift (js_map mapDbExperienceToModel (data r)))
    (λ err,
       console_error "Error loading experiences:" err;;
       getSavedExperiences).

(** Lines 320-337. *)
Definition getTrendingExperiences : M JsVal :=
  try_catch
    (r ← await h (Select COLUMNS (Eq "trending" (VBool true)) Rows);
     throw_if (error r);;
     lift (js_map mapDbExperienceToModel (data r)))
    (λ err,
       console_error "Error loading trending experiences:" err;;
       localExperiences ← getSavedExperiences;
       lift (js_filter (λ exp, trending ← get exp "trending"; Normal (ToBoolean trending))
               localExperiences)).

(** Lines 340-357. *)
Definition getFeaturedExperiences : M JsVal :=
  try_catch
    (r ← await h (Select COLUMNS (Eq "featured" (VBool true)) Rows);
     throw_if (error r);;
     lift (js_map mapDbExperienceToModel (data r)))
    (λ err,
       console_error "Error loading featured experiences:" err;;
       localExperiences ← getSavedExperiences;
       lift (js_filter (λ exp, featured ← get exp "featured"; Normal (ToBoolean featured))
               localExperiences)).

(** Lines 360-380. *)
Definition getExperienceById (id : string) : M JsVal :=
  try_catch
    (r ← await h (Select COLUMNS (Eq "id" (VStr id)) MaybeSingle);
     throw_if (error r);;
     if negb (ToBoolean (data r)) then mret VNull
     else lift (mapDbExperienceToModel (data r)))
    (λ err,
       console_error "Error loading experience by ID:" err;;
       localExperiences ← getSavedExperiences;
       lift (js_find_or_null
               (λ exp, exp_id ← get exp "id"; Normal (strict_eq_str exp_id id))
               localExperiences)).

(** [categories.find(cat => cat.id === categoryId)] *)
Definition find_category (categoryId : string) : option Category :=
  List.find (λ cat, String.eqb (cat_id cat) categoryId) (categories h).

(** [v?.toLowerCase()] *)
Definition optional_toLowerCase (v : JsVal) : Completion JsVal :=
  match v with
  | VUndefined | VNull => Normal VUndefined
  | VStr s => Normal (VStr (toLowerCase h s))
  | _ => Throw (TypeError "exp.category?.toLowerCase is not a function")
  end.

(** [exp.category?.toLowerCase() === name.toLowerCase()] *)
Definition category_matches (name : string) (exp : JsVal) : Completion bool :=
  category ← get exp "category";
  lowered ← optional_toLowerCase category;
  Normal (strict_eq_str lowered (toLowerCase h name)).

(** Lines 383-416. *)
Definition getExperiencesByCategory (categoryId : string) : M JsVal :=
  try_catch
    (match find_category categoryId with
     | None => mret (VArr [])
     | Some categoryObj =>
         r ← await h (Select COLUMNS
                        (ILike "category" (toLowerCase h (cat_name categoryObj))) Rows);
         throw_if (error r);;
         empty ← lift (if negb (ToBoolean (data r)) then Normal true
                       else length_is0 (data r));
         if (empty : bool) then
           localExperiences ← getSavedExperiences;
           lift (js_filter (category_matches (cat_name categoryObj)) localExperiences)
         else lift (js_map mapDbExperienceToModel (data r))
     end)
    (λ err,
       console_error "Error loading experiences by category:" err;;
       localExperiences ← getSavedExperiences;
       lift (js_filter
               (λ exp,
                  match find_category categoryId with
                  | None => Normal false
                  | Some categoryObj => category_matches (cat_name categoryObj) exp
                  end)
               localExperiences)).

End Program.

(** ** Vocabulary of the properties *)

(** Internal field and external column of the fields that the module
    copies unchanged, and of the five flags. *)
Definition copied_fields : list (string * string) :=
  [("title", "title"); ("description", "description"); ("imageUrl", "image_url");
   ("price", "price"); ("location", "location"); ("duration", "duration");
   ("participants", "participants"); ("date", "date"); ("category", "category");
   ("nicheCategory", "niche_category")].

Definition flag_fields : list (string * string) :=
  [("trending", "trending"); ("featured", "featured"); ("romantic", "romantic");
   ("adventurous", "adventurous"); ("group", "group_activity")].

(** The sixteen fields an insert or an update can send, in source order. *)
Definition sent_fields : list (string * string) :=
  copied_fields ++ [("exp_type", "exp_type")] ++ flag_fields.

(** Every column of the data model: the sent ones and [id], [latitude],
    [longitude]. *)
Definition model_columns : list string :=
  ["id"; "latitude"; "longitude"] ++ sent_fields.*2.

Definition is_string (v : JsVal) : bool :=
  match v with VStr _ => true | _ => false end.

(** A row as the data model types it: an object with a string identifier,
    a list of tags and boolean flags. *)
Definition valid_row (row : JsVal) : bool :=
  match row with
  | VObj _ =>
      is_string (prop row "id") && isArray (prop row "exp_type")
      && forallb (λ fc, is_boolean (prop row fc.2)) flag_fields
  | _ => false
  end.

(** A value that [ToString] and [Number] convert: no object in it, at any
    depth of arrays, has an own [toString] property. *)
Fixpoint has_primitive (v : JsVal) : bool :=
  match v with
  | VArr l => forallb has_primitive l
  | VObj ps => match own "toString" ps with Some _ => false | None => true end
  | _ => true
  end.

(** A row that the mapper accepts: it is neither undefined nor null and
    its coordinates convert.  A coordinate that is a number, a string, a
    boolean, null or missing always converts. *)
Definition mappable (row : JsVal) : bool :=
  negb (is_nullish row)
  && has_primitive (prop row "latitude") && has_primitive (prop row "longitude").

(** The Experience of lines 24-44 for a row that is neither undefined nor
    null, given what lines 31 and 32 make of its coordinates. *)
Definition mapped_record (item latitude longitude : JsVal) : JsVal :=
  VObj [
    ("id", prop item "id");
    ("title", prop item "title");
    ("description", prop item "description");
    ("imageUrl", prop item "image_url");
    ("price", prop item "price");
    ("location", prop item "location");
    ("latitude", latitude);
    ("longitude", longitude);
    ("duration", prop item "duration");
    ("participants", prop item "participants");
    ("date", prop item "date");
    ("category", prop item "category");
    ("nicheCategory", prop item "niche_category");
    ("exp_type", js_or (prop item "exp_type") (VArr []));
    ("trending", js_or (prop item "trending") (VBool false));
    ("featured", js_or (prop item "featured") (VBool false));
    ("romantic", js_or (prop item "romantic") (VBool false));
    ("adventurous", js_or (prop item "adventurous") (VBool false));
    ("group", js_or (prop item "group_activity") (VBool false))
  ].

(** What the first row of a list that the mapper rejects makes it throw. *)
Definition mapper_error (row : JsVal) : Exn :=
  if is_nullish row
  then TypeError "Cannot read properties of nullish (reading 'id')"
  else cannot_convert.

(** Row to model and back to the row shape of an insert. *)
Definition roundtrip (h : Host) (row : JsVal) : Completion JsVal :=
  exp ← mapDbExperienceToModel h row; insertPayload exp.

(** The round trip keeps every column of the data model. *)
Definition lossless (h : Host) (row : JsVal) : Prop :=
  ∃ p, roundtrip h row = Normal p ∧
       ∀ c, c ∈ model_columns → prop p c = prop row c.

(** The payload that lines 135-152 build, as a fold over the field list. *)
Definition sparse (updates : JsVal) (fields : list (string * string))
    (d : list (string * JsVal)) : list (string * JsVal) :=
  fold_left
    (λ d fc, if is_undefined (prop updates fc.1) then d
             else put fc.2 (prop updates fc.1) d)
    fields d.

(** The list that the updater of line 164 returns on an array of records. *)
Definition merged_list (id : string) (updates : JsVal) (l : list JsVal) : list JsVal :=
  map (λ exp, if strict_eq_str (prop exp "id") id then spread2 exp updates else exp) l.

(** What [getSavedExperiences] yields in a world. *)
Definition fallback_list (h : Host) (w : World) : JsVal :=
  if ls_denied w then experiences h
  else match ls_items w !! "experiences" with
       | Some s =>
           if String.eqb s "" then experiences h
           else match JSON_parse h s with
                | Normal v => v
                | Throw _ => experiences h
                end
       | None => experiences h
       end.

(** [w'] differs from [w] at most in the console and in the log of
    storage accesses. *)
Definition quiet (w w' : World) : Prop :=
  requests w' = requests w ∧ ls_denied w' = ls_denied w ∧
  ls_items w' = ls_items w ∧ toasts w' = toasts w ∧
  state_experiences w' = state_experiences w ∧
  state_isLoading w' = state_isLoading w ∧ state_error w' = state_error w ∧
  render_error w' = render_error w.

(** A computation that never changes what [localStorage] holds. *)
Definition keeps_storage {A} (m : M A) : Prop :=
  ∀ w, ls_items (m w).2 = ls_items w.

(** The fallback list is an array of records none of which has this id. *)
Definition lacks_id (id : string) (saved : JsVal) : Prop :=
  ∃ l, saved = VArr l ∧
       Forall (λ exp, is_nullish exp = false ∧ strict_eq_str (prop exp "id") id = false) l.

(** The request of every fetch of the full list. *)
Definition fetchAll : Request := Select COLUMNS NoFilter Rows.

(** A remote call fails when the client rejects or reports an error. *)
Definition failed (c : Completion Response) : bool :=
  match c with
  | Throw _ => true
  | Normal r => exn_truthy (error r)
  end.

Definition no_error : Exn := ThrownValue VNull.

(** ** A host for closed examples

    A read-only remote table holding [rows] (or an unreachable one), and a
    JSON codec defined on the few texts the examples use; on those it
    agrees with the real one.  The examples never convert between strings
    and numbers or change case, so these three are left trivial. *)

Definition row_has_id (id : JsVal) (row : JsVal) : bool :=
  match id with
  | VStr s => strict_eq_str (prop row "id") s
  | _ => false
  end.

Definition test_remote (online : bool) (rows : list JsVal)
    (history : list Request) (q : Request) : Completion Response :=
  if online then
    match q with
    | Select _ NoFilter Rows => Normal {| data := VArr rows; error := no_error |}
    | Select _ (Eq "id" id) MaybeSingle =>
        Normal {| data := default VNull (List.find (row_has_id id) rows);
                  error := no_error |}
    | _ => Normal {| data := VNull; error := no_error |}
    end
  else
    Normal {| data := VNull;
              error := ThrownValue (VObj [("message", VStr "TypeError: Failed to fetch")]) |}.

Definition test_parse (s : string) : Completion JsVal :=
  if String.eqb s "[]" then Normal (VArr [])
  else if String.eqb s "{}" then Normal (VObj [])
  else if String.eqb s "null" then Normal VNull
  else if String.eqb s "[{},{},{}]" then Normal (VArr [VObj []; VObj []; VObj []])
  else Throw (NativeError "SyntaxError" "Unexpected token in JSON").

Definition test_stringify (v : JsVal) (indent : option nat) : string :=
  match v with
  | VArr [] => "[]"
  | VObj [] => "{}"
  | VNull => "null"
  | VArr [VObj []; VObj []; VObj []] => "[{},{},{}]"
  | _ => "[...]"
  end.

Definition testHost (online : bool) (rows : list JsVal) : Host :=
  {| supabase := test_remote online rows;
     JSON_parse := test_parse;
     JSON_stringify := test_stringify;
     StringToNumber := λ _, PrimFloat.nan;
     NumberToString := λ _, "NaN";
     toLowerCase := λ s, s;
     quota_ok := λ _, true;
     categories := [{| cat_id := "adventure"; cat_name := "Adventure" |};
                    {| cat_id := "dining"; cat_name := "Dining" |}];
     experiences := VArr [] |}.

Definition emptyWorld : World :=
  {| requests := []; ls_denied := false; ls_items := ∅; ls_log := [];
     console := []; toasts := [];
     state_experiences := VArr []; state_isLoading := true; state_error := None;
     render_error := None |}.

(** A world whose fallback store caches three records. *)
Definition cachedWorld : World :=
  {| requests := []; ls_denied := false;
     ls_items := {["experiences" := "[{},{},{}]"]}; ls_log := [];
     console := []; toasts := [];
     state_experiences := VArr []; state_isLoading := true; state_error := None;
     render_error := None |}.

(** A stored row, for the examples. *)
Definition sampleRow : JsVal :=
  VObj [("id", VStr "e1"); ("title", VStr "Hike"); ("description", VStr "A walk");
        ("image_url", VStr "hike.png"); ("price", VNum 10); ("location", VStr "Paris");
        ("latitude", VNum 48.5); ("longitude", VNum 2.25);
        ("duration", VStr "2h"); ("participants", VStr "4"); ("date", VStr "2025-01-01");
        ("category", VStr "Adventure"); ("niche_category", VNull);
        ("exp_type", VArr [VStr "outdoor"]);
        ("trending", VBool true); ("featured", VBool false); ("romantic", VBool false);
        ("adventurous", VBool true); ("group_activity", VBool false)].

(** The Experience of [sampleRow], and a manager that holds it. *)
Definition sampleExperience : JsVal :=
  VObj [("id", VStr "e1"); ("title", VStr "Hike"); ("description", VStr "A walk");
        ("imageUrl", VStr "hike.png"); ("price", VNum 10); ("location", VStr "Paris");
        ("latitude", VNum 48.5); ("longitude", VNum 2.25);
        ("duration", VStr "2h"); ("participants", VStr "4"); ("date", VStr "2025-01-01");
        ("category", VStr "Adventure"); ("nicheCategory", VNull);
        ("exp_type", VArr [VStr "outdoor"]);
        ("trending", VBool true); ("featured", VBool false); ("romantic", VBool false);
        ("adventurous", VBool true); ("group", VBool false)].

Definition otherExperience : JsVal :=
  VObj [("id", VStr "e2"); ("title", VStr "Dinner"); ("price", VNum 40)].

Definition loadedWorld : World :=
  {| requests := []; ls_denied := false; ls_items := ∅; ls_log := [];
     console := []; toasts := [];
     state_experiences := VArr [sampleExperience; otherExperience];
     state_isLoading := false; state_error := None;
     render_error := None |}.

(** A row whose [trending] column holds a number. *)
Definition untypedRow : JsVal :=
  VObj [("id", VStr "e3"); ("title", VStr "Tasting"); ("trending", VNum 1)].

(** A row whose latitude is an object with a [toString] member that is
    not a function, as the JSON text [{"toString": 1}] gives. *)
Definition opaqueRow : JsVal :=
  VObj [("id", VStr "e2"); ("title", VStr "Dinner");
        ("latitude", VObj [("toString", VNum 1)])].

(** A place on the equator and the prime meridian. *)
Definition equatorRow : JsVal :=
  VObj [("id", VStr "e4"); ("title", VStr "Gulf of Guinea");
        ("latitude", VNum 0); ("longitude", VNum 0)].

(** ** Vocabulary of the further properties *)

(** What [if (error) throw error] throws after a remote call, if anything:
    the rejection of the client, or the truthy [error] of its answer. *)
Definition thrown_by (c : Completion Response) : option Exn :=
  match c with
  | Throw e => Some e
  | Normal r => if exn_truthy (error r) then Some (error r) else None
  end.

(** A list of records: no element is undefined or null. *)
Definition records (l : list JsVal) : Prop :=
  Forall (λ exp, is_nullish exp = false) l.

(** [exp.id === id], [exp.trending] or [exp.featured] as a condition, and
    [exp.category?.toLowerCase() === name.toLowerCase()], on a record. *)
Definition has_id (id : string) (exp : JsVal) : bool :=
  strict_eq_str (prop exp "id") id.

Definition is_flagged (flag : string) (exp : JsVal) : bool :=
  ToBoolean (prop exp flag).

Definition in_category (h : Host) (name : string) (exp : JsVal) : bool :=
  match prop exp "category" with
  | VStr s => String.eqb (toLowerCase h s) (toLowerCase h name)
  | _ => false
  end.

(** The category of a record is a string or is missing. *)
Definition category_typed (exp : JsVal) : bool :=
  match prop exp "category" with
  | VStr _ | VUndefined | VNull => true
  | _ => false
  end.

(** The nineteen keys of an Experience, in the order of lines 25-43. *)
Definition model_keys : list string :=
  ["id"; "title"; "description"; "imageUrl"; "price"; "location"; "latitude";
   "longitude"; "duration"; "participants"; "date"; "category"; "nicheCategory";
   "exp_type"; "trending"; "featured"; "romantic"; "adventurous"; "group"].

(** A computation that never changes one component of the world. *)
Definition preserves {A X} (proj : World → X) (m : M A) : Prop :=
  ∀ w, proj (m w).2 = proj w.

(** The requests of the accessors. *)
Definition insertOne (payload : JsVal) : Request :=
  Insert payload (Some ("*", Single)).

Definition byId (id : string) : Filter := Eq "id" (VStr id).

Definition selectById (id : string) : Request :=
  Select COLUMNS (byId id) MaybeSingle.

Definition selectFlag (flag : string) : Request :=
  Select COLUMNS (Eq flag (VBool true)) Rows.

Definition selectCategory (h : Host) (name : string) : Request :=
  Select COLUMNS (ILike "category" (toLowerCase h name)) Rows.

(** *** More hosts for closed examples *)

(** A remote table that accepts writes: the insert of one row answers that
    row with an identifier of the store. *)
Definition accepting_remote (rows : list JsVal)
    (history : list Request) (q : Request) : Completion Response :=
  match q with
  | Select _ NoFilter Rows => Normal {| data := VArr rows; error := no_error |}
  | Insert (VObj ps) (Some _) =>
      Normal {| data := VObj (("id", VStr "srv-1") :: ps); error := no_error |}
  | _ => Normal {| data := VNull; error := no_error |}
  end.

(** A remote table that answers its first request and is unreachable
    afterwards. *)
Definition flaky_remote (rows : list JsVal)
    (history : list Request) (q : Request) : Completion Response :=
  match history with
  | [] => test_remote true rows history q
  | _ :: _ => test_remote false rows history q
  end.

(** A remote table on which an insert succeeds and every later request
    fails. *)
Definition insert_only_remote
    (history : list Request) (q : Request) : Completion Response :=
  match q with
  | Insert _ _ => Normal {| data := VNull; error := no_error |}
  | _ => test_remote false [] history q
  end.

(** A remote table that answers every select of rows with [rows]. *)
Definition answering_remote (rows : list JsVal)
    (history : list Request) (q : Request) : Completion Response :=
  match q with
  | Select _ _ Rows => Normal {| data := VArr rows; error := no_error |}
  | _ => Normal {| data := VNull; error := no_error |}
  end.

Definition hostWith (remote : list Request → Request → Completion Response)
    (quota : bool) (defaults : JsVal) : Host :=
  {| supabase := remote;
     JSON_parse := test_parse;
     JSON_stringify := test_stringify;
     StringToNumber := λ _, PrimFloat.nan;
     NumberToString := λ _, "NaN";
     toLowerCase := λ s, s;
     quota_ok := λ _, quota;
     categories := [{| cat_id := "adventure"; cat_name := "Adventure" |};
                    {| cat_id := "dining"; cat_name := "Dining" |}];
     experiences := defaults |}.

(** The test host, with a JSON codec that also reads the text [[null]]. *)
Definition nullEntryHost : Host :=
  {| supabase := test_remote true [];
     JSON_parse := λ s, if String.eqb s "[null]" then Normal (VArr [VNull])
                        else test_parse s;
     JSON_stringify := test_stringify;
     StringToNumber := λ _, PrimFloat.nan;
     NumberToString := λ _, "NaN";
     toLowerCase := λ s, s;
     quota_ok := λ _, true;
     categories := [];
     experiences := VArr [] |}.

(** A world whose fallback store holds a text that is not an array. *)
Definition corruptWorld : World :=
  {| requests := []; ls_denied := false;
     ls_items := {["experiences" := "{}"]}; ls_log := [];
     console := []; toasts := [];
     state_experiences := VArr []; state_isLoading := true; state_error := None;
     render_error := None |}.

(** An Experience to add: [sampleExperience] without its id. *)
Definition draftExperience : JsVal :=
  VObj [("title", VStr "Hike"); ("description", VStr "A walk");
        ("imageUrl", VStr "hike.png"); ("price", VNum 10); ("location", VStr "Paris");
        ("duration", VStr "2h"); ("participants", VStr "4"); ("date", VStr "2025-01-01");
        ("category", VStr "Adventure"); ("exp_type", VArr [VStr "outdoor"]);
        ("trending", VBool true)].

(** * Properties *)

(** ** Property lists *)

Section PropertyLists.
Implicit Types (k : string) (v : JsVal) (ps : list (string * JsVal)).

Lemma eqb_true_iff k k' : String.eqb k k' = true ↔ k = k'.
Proof. apply String.eqb_eq. Qed.

Lemma own_app k ps qs :
  own k (ps ++ qs) = match own k qs with Some v => Some v | None => own k ps end.
Proof.
  induction ps as [|[k' v'] ps IH]; simpl.
  - by destruct (own k qs).
  - rewrite IH. by destruct (own k qs).
Qed.

Lemma own_None_cons k k' v ps :
  own k ((k', v) :: ps) = None ↔ own k ps = None ∧ String.eqb k' k = false.
Proof.
  simpl. destruct (own k ps), (String.eqb k' k); intuition congruence.
Qed.

Lemma replace_absent k v ps :
  own k ps = None →
  map (λ kv, if String.eqb kv.1 k then (k, v) else kv) ps = ps.
Proof.
  induction ps as [|[k' v'] ps IH]; [done|].
  intros [Hps Hk]%own_None_cons. simpl. by rewrite Hk, IH.
Qed.

Lemma own_replace_eq k v ps :
  is_Some (own k ps) →
  own k (map (λ kv, if String.eqb kv.1 k then (k, v) else kv) ps) = Some v.
Proof.
  induction ps as [|[k' v'] ps IH]; intros [x Hx]; [done|].
  simpl in *. destruct (own k ps) as [y|] eqn:Hown.
  - rewrite IH by eauto. by destruct (String.eqb k' k).
  - rewrite (replace_absent _ _ _ Hown), Hown.
    destruct (String.eqb k' k) eqn:Hk; [|done].
    by rewrite String.eqb_refl.
Qed.

Lemma own_replace_ne k k' v ps :
  k ≠ k' →
  own k' (map (λ kv, if String.eqb kv.1 k then (k, v) else kv) ps) = own k' ps.
Proof.
  intros Hne. induction ps as [|[k2 v2] ps IH]; simpl; [done|].
  rewrite IH. destruct (String.eqb k2 k) eqn:E; [|done].
  apply eqb_true_iff in E as ->.
  destruct (own k' ps); [done|].
  destruct (String.eqb k k') eqn:E'; [by apply eqb_true_iff in E'|done].
Qed.

Lemma own_put_eq k v ps : own k (put k v ps) = Some v.
Proof.
  unfold put. destruct (own k ps) eqn:Hown.
  - apply own_replace_eq. by rewrite Hown.
  - rewrite own_app. simpl. by rewrite String.eqb_refl.
Qed.

Lemma own_put_ne k k' v ps : k ≠ k' → own k' (put k v ps) = own k' ps.
Proof.
  intros Hne. unfold put. destruct (own k ps).
  - by apply own_replace_ne.
  - rewrite own_app. simpl.
    destruct (String.eqb k k') eqn:E; [by apply eqb_true_iff in E|done].
Qed.

Lemma own_put k k' v ps :
  own k' (put k v ps) = if String.eqb k k' then Some v else own k' ps.
Proof.
  destruct (String.eqb k k') eqn:E.
  - apply eqb_true_iff in E as ->. apply own_put_eq.
  - apply own_put_ne. intros ->. by rewrite String.eqb_refl in E.
Qed.

(** An object spread overrides exactly the keys of its source. *)
Lemma own_assign k target src :
  own k (assign target src)
  = match own k src with Some v => Some v | None => own k target end.
Proof.
  unfold assign. revert target.
  induction src as [|[k' v'] src IH]; intros target; simpl; [done|].
  rewrite IH, own_put. destruct (own k src); [done|].
  by destruct (String.eqb k' k).
Qed.

End PropertyLists.

(** ** The record mapper *)

(** Case analysis on membership in one of the literal field lists. *)
Ltac each_field H :=
  unfold sent_fields, copied_fields, flag_fields in H; simpl in H;
  repeat (apply elem_of_cons in H as [H|H]; [simplify_eq|]);
  try (by apply elem_of_nil in H).

(** [v || false] is never undefined, is false for a falsy [v], and is a
    boolean when [v] is one or is falsy. *)
Lemma js_or_false_defined v : js_or v (VBool false) ≠ VUndefined.
Proof. unfold js_or. by destruct v as [| |[]| | | |]; simpl; try destruct (negb _). Qed.

Lemma js_or_falsy v d : ToBoolean v = false → js_or v d = d.
Proof. unfold js_or. by intros ->. Qed.

Lemma js_or_truthy v d : ToBoolean v = true → js_or v d = v.
Proof. unfold js_or. by intros ->. Qed.

Lemma js_or_boolean v :
  is_boolean v = true ∨ ToBoolean v = false → is_boolean (js_or v (VBool false)) = true.
Proof.
  intros [Hb|Hf].
  - by destruct v as [| |[]| | | |].
  - by rewrite js_or_falsy.
Qed.

Lemma isArray_truthy v : isArray v = true → ToBoolean v = true.
Proof. by destruct v. Qed.

Lemma js_or_false_boolean v : is_boolean v = true → js_or v (VBool false) = v.
Proof. by destruct v as [| |[]| | | |]. Qed.

(** Induction on values, through the elements of arrays. *)
Lemma JsVal_array_ind (P : JsVal → Prop) :
  P VUndefined → P VNull → (∀ b, P (VBool b)) → (∀ x, P (VNum x)) →
  (∀ s, P (VStr s)) → (∀ l, Forall P l → P (VArr l)) → (∀ ps, P (VObj ps)) →
  ∀ v, P v.
Proof.
  intros Hu Hn Hb Hx Hs Harr Hobj. fix IH 1.
  intros [| |b|x|s|l|ps];
    [exact Hu|exact Hn|apply Hb|apply Hx|apply Hs| |apply Hobj].
  apply Harr. induction l as [|x l IHl]; constructor; [apply IH|exact IHl].
Qed.

Section Mapper.
Context (h : Host).

Lemma get_ok v k : is_nullish v = false → get v k = Normal (prop v k).
Proof. unfold get. by intros ->. Qed.

Lemma get_nullish v k : is_nullish v = true → ∃ e, get v k = Throw e.
Proof. unfold get. intros ->. eauto. Qed.

(** *** Conversion to a string and to a number *)

(** [ToString] returns exactly on the values that [has_primitive] accepts,
    and throws the same TypeError on all others. *)
Lemma ToString_has_primitive v :
  (has_primitive v = true → ∃ s, ToString h v = Normal s) ∧
  (has_primitive v = false → ToString h v = Throw cannot_convert).
Proof.
  induction v as [| | | | |l IH|ps] using JsVal_array_ind;
    try (split; [by eauto|done]).
  - simpl.
    assert ((forallb has_primitive l = true →
             ∃ ss, mapM_c (λ x, if is_nullish x then Normal "" else ToString h x) l
                   = Normal ss) ∧
            (forallb has_primitive l = false →
             mapM_c (λ x, if is_nullish x then Normal "" else ToString h x) l
             = Throw cannot_convert)) as [Hok Hthrow].
    { induction IH as [|x l [Hx1 Hx2] _ [IH1 IH2]]; simpl; [split; [by eauto|done]|].
      destruct (has_primitive x) eqn:Hx; simpl.
      - assert (∃ s, (if is_nullish x then Normal "" else ToString h x) = Normal s)
          as [s ->].
        { destruct (is_nullish x); [by eauto|by apply Hx1]. }
        simpl. split.
        + intros [ss ->]%IH1. simpl. eauto.
        + intros ->%IH2. done.
      - split; [done|]. intros _.
        assert (is_nullish x = false) as -> by (by destruct x).
        by rewrite Hx2. }
    split.
    + intros [ss ->]%Hok. simpl. eauto.
    + intros ->%Hthrow. done.
  - simpl. destruct (own "toString" ps); split; by eauto.
Qed.

Lemma Number_converts v :
  has_primitive v = true → ∃ x, Number h v = Normal (VNum x).
Proof.
  intros Hv. unfold Number, ToNumber.
  destruct v as [| |b|x|s|l|ps]; simpl; try by eauto.
  - destruct (proj1 (ToString_has_primitive (VArr l)) Hv) as [s Hs].
    simpl in Hs. rewrite Hs. simpl. eauto.
  - simpl in Hv. destruct (own "toString" ps); [done|]. simpl. eauto.
Qed.

Lemma Number_throws v :
  has_primitive v = false → Number h v = Throw cannot_convert.
Proof.
  intros Hv. unfold Number, ToNumber.
  destruct v as [| |b|x|s|l|ps]; try done.
  - pose proof (proj2 (ToString_has_primitive (VArr l)) Hv) as Hs.
    simpl in Hs. simpl. by rewrite Hs.
  - simpl in *. by destruct (own "toString" ps).
Qed.

Lemma no_primitive_truthy v : has_primitive v = false → ToBoolean v = true.
Proof. by destruct v. Qed.

(** *** The mapper on one row *)

Lemma coordinate_ok item c :
  is_nullish item = false →
  coordinate h item c
  = if ToBoolean (prop item c) then Number h (prop item c) else Normal VUndefined.
Proof. intros H. unfold coordinate. by rewrite (get_ok _ _ H). Qed.

Lemma coordinate_converts item c :
  is_nullish item = false → has_primitive (prop item c) = true →
  ∃ v, coordinate h item c = Normal v.
Proof.
  intros H Hc. rewrite (coordinate_ok _ _ H).
  destruct (ToBoolean (prop item c)); [|by eauto].
  destruct (Number_converts _ Hc) as [x ->]. eauto.
Qed.

Lemma coordinate_throws item c :
  is_nullish item = false → has_primitive (prop item c) = false →
  coordinate h item c = Throw cannot_convert.
Proof.
  intros H Hc. rewrite (coordinate_ok _ _ H), (no_primitive_truthy _ Hc).
  by apply Number_throws.
Qed.

(** On anything but undefined and null the mapper returns the literal of
    lines 24-44 once both coordinates have been converted. *)
Lemma mapDb_ok item latitude longitude :
  is_nullish item = false →
  coordinate h item "latitude" = Normal latitude →
  coordinate h item "longitude" = Normal longitude →
  mapDbExperienceToModel h item = Normal (mapped_record item latitude longitude).
Proof.
  intros H Hlat Hlon. unfold mapDbExperienceToModel. rewrite Hlat, Hlon.
  unfold get. by rewrite H.
Qed.

Lemma mappable_record item : mappable item = true → is_nullish item = false.
Proof.
  unfold mappable. rewrite !andb_true_iff, negb_true_iff. by intros [[? _] _].
Qed.

Lemma mapDb_mappable item :
  mappable item = true →
  ∃ latitude longitude,
    coordinate h item "latitude" = Normal latitude ∧
    coordinate h item "longitude" = Normal longitude ∧
    mapDbExperienceToModel h item = Normal (mapped_record item latitude longitude).
Proof.
  intros Hm. pose proof (mappable_record _ Hm) as H.
  unfold mappable in Hm. rewrite !andb_true_iff in Hm. destruct Hm as [[_ Hlat] Hlon].
  destruct (coordinate_converts item "latitude" H Hlat) as [lat Hlat'].
  destruct (coordinate_converts item "longitude" H Hlon) as [lon Hlon'].
  exists lat, lon. split; [done|]. split; [done|]. by apply mapDb_ok.
Qed.

(** On every other value the mapper throws: reading [id] fails on
    undefined and null, and [Number] fails on a coordinate that has no
    primitive form. *)
Lemma mapDb_unmappable item :
  mappable item = false →
  mapDbExperienceToModel h item = Throw (mapper_error item).
Proof.
  unfold mappable, mapper_error. intros Hm.
  destruct (is_nullish item) eqn:H.
  { unfold mapDbExperienceToModel, get. by rewrite H. }
  simpl in Hm. unfold mapDbExperienceToModel.
  destruct (has_primitive (prop item "latitude")) eqn:Hlat.
  - simpl in Hm.
    destruct (coordinate_converts item "latitude" H Hlat) as [lat ->].
    rewrite (coordinate_throws item "longitude" H Hm).
    unfold get. by rewrite H.
  - rewrite (coordinate_throws item "latitude" H Hlat).
    unfold get. by rewrite H.
Qed.

Lemma mapDb_nullish item :
  is_nullish item = true → ∃ e, mapDbExperienceToModel h item = Throw e.
Proof. intros H. unfold mapDbExperienceToModel, get. rewrite H. eauto. Qed.

Lemma mapDb_Normal_inv item e :
  mapDbExperienceToModel h item = Normal e → mappable item = true.
Proof.
  intros H. destruct (mappable item) eqn:E; [done|].
  by rewrite (mapDb_unmappable item E) in H.
Qed.

Lemma mapDb_Normal_record item e :
  mapDbExperienceToModel h item = Normal e →
  ∃ latitude longitude,
    coordinate h item "latitude" = Normal latitude ∧
    coordinate h item "longitude" = Normal longitude ∧
    e = mapped_record item latitude longitude.
Proof.
  intros He.
  destruct (mapDb_mappable item (mapDb_Normal_inv _ _ He)) as (lat & lon & Hlat & Hlon & Hm).
  exists lat, lon. split; [done|]. split; [done|]. congruence.
Qed.

(** A mapped array of rows: every row is mapped, in order. *)
Lemma mapM_mapDb_length l mapped :
  mapM_c (mapDbExperienceToModel h) l = Normal mapped → length mapped = length l.
Proof.
  revert mapped. induction l as [|x l IH]; intros mapped; simpl.
  - by intros [= <-].
  - destruct (mapDbExperienceToModel h x); [|done]. simpl.
    destruct (mapM_c _ l) eqn:E; [|done]. simpl.
    intros [= <-]. simpl. f_equal. by apply IH.
Qed.

Lemma mapM_mapDb_total l :
  Forall (λ row, mappable row = true) l →
  ∃ mapped, mapM_c (mapDbExperienceToModel h) l = Normal mapped.
Proof.
  induction 1 as [|x l Hx _ [mapped IH]]; simpl; [eauto|].
  destruct (mapDb_mappable x Hx) as (lat & lon & _ & _ & ->).
  rewrite IH. simpl. eauto.
Qed.

(** What the mapper does with a coordinate: the conversion guards on
    truthiness, not on presence. *)
Lemma mapDb_coordinate item e c :
  c ∈ ["latitude"; "longitude"] →
  mapDbExperienceToModel h item = Normal e →
  (if ToBoolean (prop item c) then Number h (prop item c) else Normal VUndefined)
  = Normal (prop e c).
Proof.
  intros Hc He.
  pose proof (mappable_record _ (mapDb_Normal_inv _ _ He)) as Hn.
  destruct (mapDb_Normal_record _ _ He) as (lat & lon & Hlat & Hlon & ->).
  rewrite (coordinate_ok _ "latitude" Hn) in Hlat.
  rewrite (coordinate_ok _ "longitude" Hn) in Hlon.
  repeat (apply elem_of_cons in Hc as [->|Hc]; [done|]).
  by apply elem_of_nil in Hc.
Qed.

Lemma mapDb_coordinate_absent item e c :
  c ∈ ["latitude"; "longitude"] →
  mapDbExperienceToModel h item = Normal e →
  is_nullish (prop item c) = true →
  prop e c = VUndefined.
Proof.
  intros Hc He Habs. pose proof (mapDb_coordinate _ _ _ Hc He) as H.
  destruct (prop item c); try done; simpl in H; congruence.
Qed.

(** C3, at the failing input.  A row on the equator and the prime meridian
    has both coordinates present, their numeric conversion is 0, and the
    mapper leaves both fields of the Experience undefined. *)
Theorem mapDb_drops_zero_coordinate :
  prop equatorRow "latitude" = VNum 0 ∧ prop equatorRow "longitude" = VNum 0 ∧
  Number h (VNum 0) = Normal (VNum 0) ∧
  ∃ e, mapDbExperienceToModel h equatorRow = Normal e ∧
       prop e "latitude" = VUndefined ∧ prop e "longitude" = VUndefined.
Proof. repeat split. eexists. repeat split. Qed.

(** C4, amended.  For every row that the mapper accepts, each of the five
    flags of the Experience it produces is never undefined (nor absent),
    is false whenever the stored field is absent, null or otherwise falsy,
    is a boolean whenever the stored field is a boolean or falsy, and is
    the stored value itself whenever that value is truthy, boolean or
    not. *)
Theorem mapDb_flags_default item field column :
  mappable item = true →
  (field, column) ∈ flag_fields →
  ∃ e, mapDbExperienceToModel h item = Normal e ∧
    (∃ ps v, e = VObj ps ∧ own field ps = Some v ∧ v ≠ VUndefined) ∧
    (ToBoolean (prop item column) = false → prop e field = VBool false) ∧
    (is_boolean (prop item column) = true ∨ ToBoolean (prop item column) = false →
     is_boolean (prop e field) = true) ∧
    (ToBoolean (prop item column) = true → prop e field = prop item column).
Proof.
  intros Hm Hin.
  destruct (mapDb_mappable item Hm) as (lat & lon & _ & _ & ->).
  eexists. split; [reflexivity|].
  each_field Hin; simpl;
    (split; [eexists _, _; split; [done|split; [done|apply js_or_false_defined]]|]);
    (split; [apply js_or_falsy|split; [apply js_or_boolean|apply js_or_truthy]]).
Qed.

(** [(v || d) || d] is [v || d]. *)
Lemma js_or_twice v d : js_or (js_or v d) d = js_or v d.
Proof.
  unfold js_or. destruct (ToBoolean v) eqn:Hv; [by rewrite Hv|].
  by destruct (ToBoolean d).
Qed.

(** C1, amended.  For every row that the mapper accepts, mapping to the
    Experience and back to the row literal of an insert returns a row with
    the sixteen sent columns and no other.  Each of the ten copied columns
    keeps its value.  [exp_type] and the five flags keep their value when
    it is truthy and come back as the default of the module, [[]] and
    false, when it is missing or otherwise falsy; so every column with a
    truthy value and every boolean flag is kept.  [id], [latitude] and
    [longitude] are not part of the literal. *)
Theorem roundtrip_sent_columns row :
  mappable row = true →
  ∃ ps, roundtrip h row = Normal (VObj ps) ∧
        ps.*1 = sent_fields.*2 ∧
        (∀ field column, (field, column) ∈ copied_fields →
           own column ps = Some (prop row column)) ∧
        own "exp_type" ps = Some (js_or (prop row "exp_type") (VArr [])) ∧
        (∀ field column, (field, column) ∈ flag_fields →
           own column ps = Some (js_or (prop row column) (VBool false))) ∧
        (∀ field column, (field, column) ∈ sent_fields →
           ToBoolean (prop row column) = true →
           own column ps = Some (prop row column)) ∧
        (∀ field column, (field, column) ∈ flag_fields →
           is_boolean (prop row column) = true →
           own column ps = Some (prop row column)) ∧
        own "id" ps = None ∧ own "latitude" ps = None ∧ own "longitude" ps = None.
Proof.
  intros Hm. unfold roundtrip.
  destruct (mapDb_mappable row Hm) as (lat & lon & _ & _ & ->).
  eexists. split; [reflexivity|]. simpl. rewrite !js_or_twice.
  split; [done|]. split; [|split; [done|split; [|split; [|split]]]].
  - intros field column Hin. by each_field Hin.
  - intros field column Hin. by each_field Hin.
  - intros field column Hin Ht.
    each_field Hin; simpl; try done; by rewrite js_or_truthy.
  - intros field column Hin Hb.
    each_field Hin; simpl; by rewrite js_or_false_boolean.
  - done.
Qed.

End Mapper.

(** *** Closed instances for the record mapper *)

Lemma roundtrip_sent_columns_witness :
  mappable sampleRow = true ∧
  ∃ ps, roundtrip (testHost true []) sampleRow = Normal (VObj ps) ∧
        (∀ field column, (field, column) ∈ sent_fields →
           own column ps = Some (prop sampleRow column)) ∧
        own "id" ps = None ∧ own "latitude" ps = None ∧ own "longitude" ps = None.
Proof.
  split; [reflexivity|].
  destruct (roundtrip_sent_columns (testHost true []) sampleRow eq_refl)
    as (ps & Hrun & _ & Hcopied & _ & _ & Htruthy & Hflag & Hid & Hlat & Hlon).
  exists ps. split; [exact Hrun|]. split; [|by repeat split].
  intros field column Hin.
  unfold sent_fields in Hin. apply elem_of_app in Hin as [Hin|Hin].
  { by apply (Hcopied field column). }
  apply elem_of_app in Hin as [Hin|Hin].
  - apply (Htruthy field column).
    + unfold sent_fields. apply elem_of_app. right. apply elem_of_app. by left.
    + apply list_elem_of_singleton in Hin. by injection Hin as -> ->.
  - apply (Hflag field column Hin). by each_field Hin.
Defined.

(** C1 as stated fails on a valid row: the insert literal has no [id]
    (nor [latitude], [longitude]), so the identifier does not come back. *)
Lemma roundtrip_not_lossless :
  valid_row sampleRow = true ∧ ¬ lossless (testHost true []) sampleRow.
Proof.
  split; [reflexivity|]. intros (p & Hp & Hall).
  vm_compute in Hp. injection Hp as <-.
  specialize (Hall "id"). unfold model_columns in Hall. simpl in Hall.
  discriminate Hall. apply list_elem_of_here.
Qed.

(** A row with no flags and no [exp_type] comes back with the defaults in
    their place. *)
Lemma roundtrip_defaults_missing_columns :
  mappable equatorRow = true ∧
  prop equatorRow "trending" = VUndefined ∧ prop equatorRow "exp_type" = VUndefined ∧
  ∃ ps, roundtrip (testHost true []) equatorRow = Normal (VObj ps) ∧
        own "trending" ps = Some (VBool false) ∧ own "exp_type" ps = Some (VArr []).
Proof. do 3 (split; [reflexivity|]). eexists. by repeat split. Qed.

(** The mapper rejects a row whose latitude has no primitive form, so
    there is nothing to map back. *)
Lemma roundtrip_rejects_opaque_row :
  is_nullish opaqueRow = false ∧ mappable opaqueRow = false ∧
  mapDbExperienceToModel (testHost true []) opaqueRow = Throw cannot_convert ∧
  roundtrip (testHost true []) opaqueRow = Throw cannot_convert.
Proof. by repeat split. Qed.

Lemma mapDb_flags_default_witness :
  mappable untypedRow = true ∧ ("trending", "trending") ∈ flag_fields ∧
  ∃ e, mapDbExperienceToModel (testHost true []) untypedRow = Normal e ∧
       prop e "trending" = VNum 1.
Proof.
  assert (("trending", "trending") ∈ flag_fields) as Hin by apply list_elem_of_here.
  split; [reflexivity|]. split; [exact Hin|].
  destruct (mapDb_flags_default (testHost true []) untypedRow "trending" "trending"
              eq_refl Hin) as (e & He & _ & _ & _ & Hkept).
  exists e. split; [exact He|]. exact (Hkept eq_refl).
Defined.

(** C4 as stated fails where it says that each flag is a boolean: a truthy
    stored value that is not a boolean is passed through. *)
Lemma mapDb_flag_not_boolean :
  ∃ e, mapDbExperienceToModel (testHost true []) untypedRow = Normal e ∧
       prop e "trending" = VNum 1 ∧ is_boolean (prop e "trending") = false.
Proof. eexists. repeat split. Qed.

(** ** The local fallback store *)

Section Fallback.
Context (h : Host).

(** Reading the fallback never throws, and touches nothing but the
    console and the access log. *)
Lemma getSavedExperiences_run w :
  ∃ w', getSavedExperiences h w = (Normal (fallback_list h w), w') ∧ quiet w w'.
Proof.
  unfold getSavedExperiences, fallback_list, try_catch, localStorage_getItem,
    console_error, lift, mbind, M_bind, mret, M_ret.
  destruct (ls_denied w) eqn:Hd; simpl.
  { eexists. split; [done|]. by repeat split. }
  destruct (ls_items w !! "experiences") as [s|]; simpl.
  - destruct (String.eqb s ""); simpl.
    { eexists. split; [done|]. by repeat split. }
    destruct (JSON_parse h s); simpl;
      (eexists; split; [done|]; by repeat split).
  - eexists. split; [done|]. by repeat split.
Qed.

Lemma fallback_list_ext w w' :
  ls_denied w' = ls_denied w → ls_items w' = ls_items w →
  fallback_list h w' = fallback_list h w.
Proof. intros Hd Hi. unfold fallback_list. by rewrite Hd, Hi. Qed.

End Fallback.

(** ** Running effectful code *)

Section Running.
Context (h : Host).

Lemma bind_Normal {A B} (m : M A) (f : A → M B) w a w1 :
  m w = (Normal a, w1) → (m ≫= f) w = f a w1.
Proof. unfold mbind, M_bind. by intros ->. Qed.

Lemma bind_Throw {A B} (m : M A) (f : A → M B) w e w1 :
  m w = (Throw e, w1) → (m ≫= f) w = (Throw e, w1).
Proof. unfold mbind, M_bind. by intros ->. Qed.

Lemma try_catch_Normal {A} (body : M A) handler w a w1 :
  body w = (Normal a, w1) → try_catch body handler w = (Normal a, w1).
Proof. unfold try_catch. by intros ->. Qed.

Lemma try_catch_Throw {A} (body : M A) handler w e w1 :
  body w = (Throw e, w1) → try_catch body handler w = handler e w1.
Proof. unfold try_catch. by intros ->. Qed.

Lemma try_finally_run {A} (body : M A) fin w c w1 w2 :
  body w = (c, w1) → fin w1 = (Normal (), w2) → try_finally body fin w = (c, w2).
Proof. unfold try_finally. by intros -> ->. Qed.

(** A remote call followed by [if (error) throw error]. *)
Lemma await_failed {A} q (k : Response → M A) w :
  failed (supabase h (requests w) q) = true →
  ∃ e, (r ← await h q; throw_if (error r);; k r) w
       = (Throw e, with_requests (q :: requests w) w).
Proof.
  unfold failed, await, throw_if, throw, mbind, M_bind.
  destruct (supabase h (requests w) q) as [r|e]; [|by eauto].
  intros ->. eauto.
Qed.

Lemma await_ok {A} q (k : Response → M A) w r :
  supabase h (requests w) q = Normal r →
  exn_truthy (error r) = false →
  (r ← await h q; throw_if (error r);; k r) w
  = k r (with_requests (q :: requests w) w).
Proof.
  unfold await, throw_if, mbind, M_bind, mret, M_ret. by intros -> ->.
Qed.

End Running.

(** ** Reset, category lookup and import *)

Section Accessors.
Context (h : Host).

(** C9.  In every world, reset returns [{success: true}] with its success
    message and changes nothing but the list of toasts: the in-memory
    list, the local fallback store and the remote store (no request is
    issued) are as before. *)
Theorem resetExperiences_noop w :
  let w' := with_toasts ((ToastSuccess, "Experiences have been reset") :: toasts w) w in
  resetExperiences w = (Normal (result true "Experiences have been reset"), w') ∧
  prop (result true "Experiences have been reset") "success" = VBool true ∧
  state_experiences w' = state_experiences w ∧
  ls_items w' = ls_items w ∧ ls_log w' = ls_log w ∧
  requests w' = requests w.
Proof. by repeat split. Qed.

Lemma find_category_None categoryId :
  (∀ cat, cat ∈ categories h → cat_id cat ≠ categoryId) →
  find_category h categoryId = None.
Proof.
  unfold find_category. induction (categories h) as [|cat cats IH]; intros Hall.
  - done.
  - simpl. destruct (String.eqb (cat_id cat) categoryId) eqn:E.
    + apply eqb_true_iff in E. destruct (Hall cat); [apply list_elem_of_here|done].
    + apply IH. intros c Hc. apply Hall. by apply list_elem_of_further.
Qed.

(** C10.  For a category identifier that matches no entry of the static
    list, the result is the empty list and the world is untouched: no
    request is issued and the fallback store is not read. *)
Theorem getExperiencesByCategory_unknown categoryId w :
  (∀ cat, cat ∈ categories h → cat_id cat ≠ categoryId) →
  getExperiencesByCategory h categoryId w = (Normal (VArr []), w).
Proof.
  intros Hall. unfold getExperiencesByCategory, try_catch.
  by rewrite (find_category_None _ Hall).
Qed.

(** A [try]/[catch] whose handler always completes normally does so too. *)
Lemma try_catch_total {A} (body : M A) (handler : Exn → M A) w :
  (∀ e w1, ∃ a w2, handler e w1 = (Normal a, w2)) →
  ∃ a w', try_catch body handler w = (Normal a, w').
Proof.
  intros Hh. unfold try_catch. destruct (body w) as [[a|e] w1]; eauto.
Qed.

(** C5.  When the parsed value of the JSON string is not an array, or the
    string does not parse, import returns a result with [success] false
    and issues no request (so no insert); the in-memory list and the store
    are unchanged.  On any input, import completes normally: it never
    raises to the caller. *)
Theorem importExperiences_rejects_non_array jsonString w :
  (∀ l, JSON_parse h jsonString ≠ Normal (VArr l)) →
  (∃ message w',
     importExperiences h jsonString w = (Normal (result false message), w') ∧
     prop (result false message) "success" = VBool false ∧
     requests w' = requests w ∧ quiet w w') ∧
  (∀ s w0, ∃ v w1, importExperiences h s w0 = (Normal v, w1)).
Proof.
  intros Hna. split.
  - unfold importExperiences, try_catch, lift, console_error, mbind, M_bind, mret, M_ret.
    destruct (JSON_parse h jsonString) as [v|e] eqn:E; simpl.
    + destruct v; try (by destruct (Hna elems));
        (eexists _, _; split; [done|]; by repeat split).
    + eexists _, _. split; [done|]. by repeat split.
  - intros s w0. apply try_catch_total. intros e w1.
    unfold console_error, mbind, M_bind, mret, M_ret. simpl. eauto.
Qed.

End Accessors.

Lemma getExperiencesByCategory_unknown_witness :
  (∀ cat, cat ∈ categories (testHost true [sampleRow]) → cat_id cat ≠ "wellness") ∧
  getExperiencesByCategory (testHost true [sampleRow]) "wellness" emptyWorld
  = (Normal (VArr []), emptyWorld).
Proof.
  assert (∀ cat, cat ∈ categories (testHost true [sampleRow]) → cat_id cat ≠ "wellness")
    as Hall.
  { intros cat Hin. simpl in Hin.
    repeat (apply elem_of_cons in Hin as [->|Hin]; [done|]).
    by apply elem_of_nil in Hin. }
  split; [exact Hall|].
  apply (getExperiencesByCategory_unknown (testHost true [sampleRow]) "wellness" emptyWorld Hall).
Defined.

Lemma importExperiences_rejects_non_array_witness :
  (∀ l, JSON_parse (testHost true [sampleRow]) "{}" ≠ Normal (VArr l)) ∧
  ∃ message w',
    importExperiences (testHost true [sampleRow]) "{}" emptyWorld
    = (Normal (result false message), w') ∧
    requests w' = [].
Proof.
  assert (∀ l, JSON_parse (testHost true [sampleRow]) "{}" ≠ Normal (VArr l)) as Hna.
  { intros l. simpl. discriminate. }
  split; [exact Hna|].
  destruct (importExperiences_rejects_non_array (testHost true [sampleRow]) "{}" emptyWorld Hna)
    as [(message & w' & Hrun & _ & Hreq & _) _].
  exists message, w'. split; [exact Hrun|exact Hreq].
Defined.

(** ** Fetch by id *)

Section FetchById.
Context (h : Host).

Lemma findM_c_none (f : JsVal → Completion bool) l :
  Forall (λ x, f x = Normal false) l → findM_c f l = Normal None.
Proof. induction 1 as [|x l Hx _ IH]; simpl; [done|]. by rewrite Hx. Qed.

Lemma find_by_id_lacking id saved :
  lacks_id id saved →
  js_find_or_null (λ exp, exp_id ← get exp "id"; Normal (strict_eq_str exp_id id)) saved
  = Normal VNull.
Proof.
  intros (l & -> & Hall). simpl. rewrite findM_c_none; [done|].
  eapply Forall_impl; [exact Hall|]. intros exp [Hn Hid]. simpl in *.
  by rewrite (get_ok _ _ Hn); simpl; rewrite Hid.
Qed.

(** C6.  When the store answers the by-id query with no error and no row
    (the identifier is not present), or the remote call fails and the
    local fallback list holds no record with that identifier, the result
    is null and nothing is raised. *)
Theorem getExperienceById_absent id w :
  let answer := supabase h (requests w) (Select COLUMNS (Eq "id" (VStr id)) MaybeSingle) in
  (∃ r, answer = Normal r ∧ exn_truthy (error r) = false ∧ ToBoolean (data r) = false)
  ∨ (failed answer = true ∧ lacks_id id (fallback_list h w)) →
  (getExperienceById h id w).1 = Normal VNull.
Proof.
  intros answer Hcase.
  assert (∀ e w1, ls_denied w1 = ls_denied w → ls_items w1 = ls_items w →
            lacks_id id (fallback_list h w) →
            ((console_error "Error loading experience by ID:" e;;
              localExperiences ← getSavedExperiences h;
              lift (js_find_or_null
                      (λ exp, exp_id ← get exp "id"; Normal (strict_eq_str exp_id id))
                      localExperiences)) w1).1 = Normal VNull) as Hcatch.
  { intros e w1 Hd Hi Hl.
    unfold console_error, lift, mbind, M_bind at 1. simpl.
    set (w2 := with_console _ w1).
    destruct (getSavedExperiences_run h w2) as (w3 & Hrun & Hq3).
    unfold mbind, M_bind. rewrite Hrun. simpl.
    assert (fallback_list h w2 = fallback_list h w) as ->
      by (by apply fallback_list_ext).
    by rewrite find_by_id_lacking. }
  unfold getExperienceById, try_catch, await, throw_if, throw, lift,
    mbind, M_bind at 1 2, mret, M_ret. simpl. fold answer.
  destruct Hcase as [(r & Hr & Herr & Hdata)|[Hfail Hl]].
  - rewrite Hr. simpl. rewrite Herr. simpl. by rewrite Hdata.
  - unfold failed in Hfail. destruct answer as [r|e]; simpl.
    + rewrite Hfail. simpl. by apply Hcatch.
    + by apply Hcatch.
Qed.

End FetchById.

Lemma getExperienceById_absent_witness :
  ((∃ r, supabase (testHost true [sampleRow]) (requests emptyWorld)
           (Select COLUMNS (Eq "id" (VStr "e9")) MaybeSingle) = Normal r ∧
         exn_truthy (error r) = false ∧ ToBoolean (data r) = false)
   ∨ (failed (supabase (testHost true [sampleRow]) (requests emptyWorld)
                (Select COLUMNS (Eq "id" (VStr "e9")) MaybeSingle)) = true ∧
      lacks_id "e9" (fallback_list (testHost true [sampleRow]) emptyWorld))) ∧
  (getExperienceById (testHost true [sampleRow]) "e9" emptyWorld).1 = Normal VNull.
Proof.
  assert (∃ r, supabase (testHost true [sampleRow]) (requests emptyWorld)
                 (Select COLUMNS (Eq "id" (VStr "e9")) MaybeSingle) = Normal r ∧
               exn_truthy (error r) = false ∧ ToBoolean (data r) = false) as Habsent.
  { eexists. split; [reflexivity|]. split; reflexivity. }
  split; [left; exact Habsent|].
  apply (getExperienceById_absent (testHost true [sampleRow]) "e9" emptyWorld).
  left. exact Habsent.
Defined.

(** ** The stateful manager's initial fetch *)

Section InitialFetch.
Context (h : Host).

(** C7.  When the initial fetch-all fails while the local fallback store
    holds a cached text that parses to a non-empty list, the fetch ends
    with the loading flag false, the error message set and the in-memory
    list equal to the cached list. *)
Theorem fetchExperiences_falls_back w s l :
  failed (supabase h (requests w) fetchAll) = true →
  ls_denied w = false →
  ls_items w !! "experiences" = Some s →
  s ≠ "" →
  JSON_parse h s = Normal (VArr l) →
  l ≠ [] →
  let w' := (fetchExperiences h w).2 in
  (fetchExperiences h w).1 = Normal () ∧
  state_isLoading w' = false ∧
  state_error w' = Some "Failed to load experiences" ∧
  state_experiences w' = VArr l ∧
  length (match state_experiences w' with VArr xs => xs | _ => [] end) = length l.
Proof.
  intros Hfail Hden Hitem Hs Hparse Hl.
  assert (∃ x xs, l = x :: xs) as (x & xs & Hcons) by (destruct l; [done|eauto]).
  assert (String.eqb s "" = false) as Hs'.
  { destruct (String.eqb s "") eqn:E; [by apply eqb_true_iff in E|done]. }
  assert (∃ w2, fetchExperiences h w = (Normal (), w2) ∧
                state_isLoading w2 = false ∧
                state_error w2 = Some "Failed to load experiences" ∧
                state_experiences w2 = VArr l) as (w2 & Hrun & Hload & Herr & Hexp).
  { unfold fetchExperiences.
    erewrite bind_Normal by reflexivity. erewrite bind_Normal by reflexivity.
    set (w0 := with_error None (with_isLoading true w)).
    match goal with
    | |- context [mbind (λ r, mbind (λ _, @?k r) (throw_if (error r))) (await h ?q)] =>
        destruct (await_failed h q k w0 Hfail) as [e He]
    end.
    destruct (getSavedExperiences_run h
                (with_error (Some "Failed to load experiences")
                   (with_console (("Error fetching experiences:", e) :: console w0)
                      (with_requests (fetchAll :: requests w0) w0))))
      as (w3 & Hsaved & Hq).
    eexists. split.
    - eapply try_finally_run; [|reflexivity].
      erewrite try_catch_Throw by exact He.
      erewrite bind_Normal by reflexivity. erewrite bind_Normal by reflexivity.
      erewrite bind_Normal by exact Hsaved.
      unfold fallback_list. simpl. rewrite Hden, Hitem, Hs', Hparse.
      erewrite bind_Normal by (rewrite Hcons; reflexivity).
      reflexivity.
    - simpl. destruct Hq as (_ & _ & _ & _ & _ & _ & -> & _). done. }
  rewrite Hrun. simpl. by rewrite Hexp.
Qed.

End InitialFetch.

Lemma fetchExperiences_falls_back_witness :
  let h := testHost false [] in
  let l := [VObj []; VObj []; VObj []] in
  (failed (supabase h (requests cachedWorld) fetchAll) = true ∧
   ls_denied cachedWorld = false ∧
   ls_items cachedWorld !! "experiences" = Some "[{},{},{}]" ∧
   "[{},{},{}]" ≠ "" ∧
   JSON_parse h "[{},{},{}]" = Normal (VArr l) ∧
   l ≠ []) ∧
  (fetchExperiences h cachedWorld).1 = Normal () ∧
  state_isLoading (fetchExperiences h cachedWorld).2 = false ∧
  state_error (fetchExperiences h cachedWorld).2 = Some "Failed to load experiences" ∧
  state_experiences (fetchExperiences h cachedWorld).2 = VArr l ∧
  length (match state_experiences (fetchExperiences h cachedWorld).2 with
          | VArr xs => xs
          | _ => []
          end) = 3.
Proof.
  intros h l.
  assert (ls_items cachedWorld !! "experiences" = Some "[{},{},{}]") as Hitem
    by apply lookup_singleton_eq.
  split; [by repeat split|].
  apply (fetchExperiences_falls_back h cachedWorld "[{},{},{}]" l);
    [reflexivity|reflexivity|exact Hitem|discriminate|reflexivity|discriminate].
Defined.

(** ** Which fetches write the local fallback store *)

Create HintDb frame.

Section StorageFrame.
Context (h : Host).

Lemma keeps_ret {A} (a : A) : keeps_storage (mret a : M A).
Proof. by intros w. Qed.

Lemma keeps_lift {A} (c : Completion A) : keeps_storage (lift c).
Proof. by intros w. Qed.

Lemma keeps_throw {A} e : keeps_storage (throw e : M A).
Proof. by intros w. Qed.

Lemma keeps_bind {A B} (m : M A) (f : A → M B) :
  keeps_storage m → (∀ a, keeps_storage (f a)) → keeps_storage (m ≫= f).
Proof.
  intros Hm Hf w. unfold mbind, M_bind. specialize (Hm w).
  destruct (m w) as [[a|e] w1]; simpl in *; [|done].
  by rewrite Hf.
Qed.

Lemma keeps_try_catch {A} (body : M A) handler :
  keeps_storage body → (∀ e, keeps_storage (handler e)) →
  keeps_storage (try_catch body handler).
Proof.
  intros Hb Hh w. unfold try_catch. specialize (Hb w).
  destruct (body w) as [[a|e] w1]; simpl in *; [done|].
  by rewrite Hh.
Qed.

Lemma keeps_if {A} (b : bool) (m1 m2 : M A) :
  keeps_storage m1 → keeps_storage m2 → keeps_storage (if b then m1 else m2).
Proof. by destruct b. Qed.

Lemma keeps_throw_if e : keeps_storage (throw_if e).
Proof. unfold throw_if. apply keeps_if; [apply keeps_throw|apply keeps_ret]. Qed.

Lemma keeps_await q : keeps_storage (await h q).
Proof. by intros w. Qed.

Lemma keeps_console_error message e : keeps_storage (console_error message e).
Proof. by intros w. Qed.

Lemma keeps_toast_error message : keeps_storage (toast_error message).
Proof. by intros w. Qed.

Lemma keeps_setExperiences v : keeps_storage (setExperiences v).
Proof. by intros w. Qed.

Lemma keeps_getSavedExperiences : keeps_storage (getSavedExperiences h).
Proof.
  intros w. destruct (getSavedExperiences_run h w) as (w' & -> & Hq).
  simpl. apply Hq.
Qed.

End StorageFrame.

#[export] Hint Resolve keeps_ret keeps_lift keeps_throw keeps_throw_if keeps_await
  keeps_console_error keeps_toast_error keeps_setExperiences
  keeps_getSavedExperiences : frame.

Ltac frame :=
  repeat match goal with
    | |- ∀ _, _ => intro
    | |- keeps_storage (try_catch _ _) => apply keeps_try_catch
    | |- keeps_storage (mbind _ _) => apply keeps_bind
    | |- keeps_storage (if _ then _ else _) => apply keeps_if
    end;
  auto with frame.

Section Caching.
Context (h : Host).

(** The other fetches of the full list never write the store. *)
Lemma getAllExperiences_keeps_storage : keeps_storage (getAllExperiences h).
Proof. unfold getAllExperiences. frame. Qed.

Lemma importExperiences_keeps_storage s : keeps_storage (importExperiences h s).
Proof. unfold importExperiences. frame. Qed.

Lemma exportExperiences_keeps_storage : keeps_storage (exportExperiences h).
Proof. unfold exportExperiences. frame. Qed.

(** C8, amended.  After a successful remote fetch by the stateful
    manager's initial fetch, the whole mapped list is written under the
    single key of the local fallback store, replacing what it held,
    provided [localStorage] accepts the write. *)
Theorem fetchExperiences_caches w r rows mapped :
  supabase h (requests w) fetchAll = Normal r →
  exn_truthy (error r) = false →
  data r = VArr rows →
  mapM_c (mapDbExperienceToModel h) rows = Normal mapped →
  ls_denied w = false →
  quota_ok h (<["experiences" := JSON_stringify h (VArr mapped) None]> (ls_items w)) = true →
  (fetchExperiences h w).1 = Normal () ∧
  state_experiences (fetchExperiences h w).2 = VArr mapped ∧
  ls_items (fetchExperiences h w).2
  = <["experiences" := JSON_stringify h (VArr mapped) None]> (ls_items w) ∧
  ls_items (fetchExperiences h w).2 !! "experiences"
  = Some (JSON_stringify h (VArr mapped) None).
Proof.
  intros Hr Herr Hdata Hmap Hden Hquota.
  assert (fetchExperiences h w
          = (Normal (),
             with_isLoading false
               (with_storage
                  (<["experiences" := JSON_stringify h (VArr mapped) None]> (ls_items w))
                  (SetItem "experiences" (JSON_stringify h (VArr mapped) None) :: ls_log w)
                  (with_experiences (VArr mapped)
                     (with_requests (fetchAll :: requests w)
                        (with_error None (with_isLoading true w))))))) as ->.
  { unfold fetchExperiences.
    erewrite bind_Normal by reflexivity. erewrite bind_Normal by reflexivity.
    eapply try_finally_run; [|reflexivity].
    apply try_catch_Normal.
    rewrite (await_ok h _ _ _ r) by done.
    rewrite Hdata. simpl. rewrite Hmap. simpl.
    erewrite bind_Normal by reflexivity. erewrite bind_Normal by reflexivity.
    unfold localStorage_setItem. simpl. by rewrite Hden, Hquota. }
  simpl. split; [done|]. split; [done|]. split; [done|].
  apply lookup_insert_eq.
Qed.

End Caching.

Lemma fetchExperiences_caches_witness :
  let h := testHost true [] in
  let r := {| data := VArr []; error := no_error |} in
  (supabase h (requests cachedWorld) fetchAll = Normal r ∧
   exn_truthy (error r) = false ∧
   data r = VArr [] ∧
   mapM_c (mapDbExperienceToModel h) [] = Normal [] ∧
   ls_denied cachedWorld = false ∧
   quota_ok h (<["experiences" := JSON_stringify h (VArr []) None]> (ls_items cachedWorld))
   = true) ∧
  ls_items cachedWorld !! "experiences" = Some "[{},{},{}]" ∧
  (fetchExperiences h cachedWorld).1 = Normal () ∧
  ls_items (fetchExperiences h cachedWorld).2 !! "experiences" = Some "[]".
Proof.
  intros h r.
  split; [by repeat split|].
  split; [apply lookup_singleton_eq|].
  destruct (fetchExperiences_caches h cachedWorld r [] [])
    as (Hrun & _ & _ & Hkey); try reflexivity.
  split; [exact Hrun|exact Hkey].
Defined.

(** C8 as stated fails for the three other fetches of the full list: the
    remote call succeeds and the local fallback store still holds
    nothing. *)
Lemma other_fetches_do_not_cache :
  let h := testHost true [sampleRow] in
  ls_items emptyWorld !! "experiences" = None ∧
  (∃ mapped, (getAllExperiences h emptyWorld).1 = Normal (VArr [mapped]) ∧
             requests (getAllExperiences h emptyWorld).2 = [fetchAll] ∧
             ls_items (getAllExperiences h emptyWorld).2 !! "experiences" = None) ∧
  (∃ mapped, (importExperiences h "[]" emptyWorld).1
             = Normal (result true "Experiences imported successfully") ∧
             state_experiences (importExperiences h "[]" emptyWorld).2 = VArr [mapped] ∧
             ls_items (importExperiences h "[]" emptyWorld).2 !! "experiences" = None) ∧
  (∃ text, (exportExperiences h emptyWorld).1 = Normal text ∧
           requests (exportExperiences h emptyWorld).2 = [fetchAll] ∧
           ls_items (exportExperiences h emptyWorld).2 !! "experiences" = None).
Proof.
  intros h. split; [apply lookup_empty|].
  split; [|split]; eexists; (split; [reflexivity|]); (split; [reflexivity|]);
    apply lookup_empty.
Qed.

(** ** Update by id *)

Section Update.
Context (h : Host).

Lemma sparse_own_notin updates fields d c :
  c ∉ fields.*2 → own c (sparse updates fields d) = own c d.
Proof.
  unfold sparse. revert d. induction fields as [|[f c'] fields IH]; intros d Hc; [done|].
  simpl in *. apply not_elem_of_cons in Hc as [Hne Hc].
  rewrite IH by done.
  destruct (is_undefined (prop updates f)); [done|]. by apply own_put_ne.
Qed.

Lemma sparse_own_in updates fields d field column :
  NoDup fields.*2 → (field, column) ∈ fields →
  own column (sparse updates fields d)
  = if is_undefined (prop updates field) then own column d
    else Some (prop updates field).
Proof.
  revert d. induction fields as [|[f c] fields IH]; intros d Hnd Hin.
  { by apply elem_of_nil in Hin. }
  simpl in Hnd. apply NoDup_cons in Hnd as [Hc Hnd].
  apply elem_of_cons in Hin as [[= -> ->]|Hin].
  - change (sparse updates ((f, c) :: fields) d)
      with (sparse updates fields
              (if is_undefined (prop updates f) then d else put c (prop updates f) d)).
    rewrite sparse_own_notin by done.
    destruct (is_undefined (prop updates f)); [done|]. apply own_put_eq.
  - change (sparse updates ((f, c) :: fields) d)
      with (sparse updates fields
              (if is_undefined (prop updates f) then d else put c (prop updates f) d)).
    rewrite IH by done.
    destruct (is_undefined (prop updates field)); [|done].
    destruct (is_undefined (prop updates f)); [done|].
    apply own_put_ne. intros ->. apply Hc.
    by apply (list_elem_of_fmap_2 snd _ (field, column)).
Qed.

Lemma sent_columns_NoDup : NoDup sent_fields.*2.
Proof. apply (bool_decide_unpack _). by vm_compute. Qed.

(** On an object, lines 135-152 build the sparse payload. *)
Lemma updatePayload_ok updates :
  is_nullish updates = false →
  updatePayload updates = Normal (VObj (sparse updates sent_fields [])).
Proof. intros H. unfold updatePayload, set_if_defined, get. by rewrite H. Qed.

Lemma mapM_mergeById id updates l :
  Forall (λ exp, is_nullish exp = false) l →
  mapM_c (mergeById id updates) l = Normal (merged_list id updates l).
Proof.
  induction 1 as [|exp l Hexp _ IH]; [done|].
  change (mapM_c (mergeById id updates) (exp :: l))
    with (y ← mergeById id updates exp;
          ys ← mapM_c (mergeById id updates) l; Normal (y :: ys)).
  rewrite IH. unfold mergeById. by rewrite (get_ok _ _ Hexp).
Qed.

(** A spread [{...exp, ...updates}] over a record: the keys of [updates]
    take its values, every other field is that of [exp]. *)
Lemma spread2_prop ps updates k :
  prop (spread2 (VObj ps) updates) k
  = match own k (spread_props updates) with
    | Some v => v
    | None => prop (VObj ps) k
    end.
Proof.
  unfold spread2, prop. rewrite !own_assign. simpl.
  by destruct (own k (spread_props updates)), (own k ps).
Qed.

Lemma matching_id_is_object exp id :
  strict_eq_str (prop exp "id") id = true → ∃ ps, exp = VObj ps.
Proof. destruct exp; try done. eauto. Qed.

End Update.

Section UpdateById.
Context (h : Host).

(** C2, amended.  For an update object [updates], the request sent to the
    remote store carries exactly those of the sixteen sent fields that are
    not undefined in [updates], each with its value and under its column
    name; [id], [latitude] and [longitude] are never sent.  When the
    remote call succeeds, the in-memory merge replaces the element whose
    id matches by [{...exp, ...updates}]: every field that [updates]
    provides (not undefined) takes its value there, every field that is
    not a key of [updates] is unchanged, and every other element of the
    list is unchanged. *)
Theorem updateExperience_sparse_merge id updates w :
  is_nullish updates = false →
  let d := sparse updates sent_fields [] in
  let q := Update (VObj d) (Eq "id" (VStr id)) in
  (requests (updateExperience h id updates w).2 = q :: requests w ∧
   (∀ field column, (field, column) ∈ sent_fields →
      own column d = if is_undefined (prop updates field) then None
                     else Some (prop updates field)) ∧
   (∀ column, column ∉ sent_fields.*2 → own column d = None)) ∧
  (∀ r l,
     supabase h (requests w) q = Normal r →
     exn_truthy (error r) = false →
     state_experiences w = VArr l →
     Forall (λ exp, is_nullish exp = false) l →
     (updateExperience h id updates w).1 = Normal () ∧
     state_experiences (updateExperience h id updates w).2
     = VArr (merged_list id updates l) ∧
     length (merged_list id updates l) = length l ∧
     ∀ i exp, l !! i = Some exp →
       (strict_eq_str (prop exp "id") id = false →
        merged_list id updates l !! i = Some exp) ∧
       (strict_eq_str (prop exp "id") id = true →
        ∃ merged, merged_list id updates l !! i = Some merged ∧
          ∀ k, (own k (spread_props updates) = None → prop merged k = prop exp k) ∧
               (is_undefined (prop updates k) = false →
                prop merged k = prop updates k))).
Proof.
  intros Hobj d q. split; [split; [|split]|].
  - unfold updateExperience, try_catch, await, throw_if, throw, lift, console_error,
      toast_error, updateExperiences, mbind, M_bind, mret, M_ret.
    rewrite (updatePayload_ok _ Hobj). fold d q.
    destruct (supabase h (requests w) q) as [r|e]; simpl; [|done].
    destruct (exn_truthy (error r)); simpl; [done|].
    by destruct (js_map _ _).
  - intros field column Hin. unfold d.
    by rewrite (sparse_own_in _ _ _ _ _ sent_columns_NoDup Hin).
  - intros column Hc. unfold d. by rewrite sparse_own_notin.
  - intros r l Hr Herr Hstate Hall.
    assert (updateExperience h id updates w
            = (Normal (),
               with_experiences (VArr (merged_list id updates l))
                 (with_requests (q :: requests w) w))) as ->.
    { unfold updateExperience. apply try_catch_Normal.
      erewrite bind_Normal by (unfold lift; by rewrite (updatePayload_ok _ Hobj)).
      fold d q. rewrite (await_ok h _ _ _ r) by done.
      unfold updateExperiences. simpl. rewrite Hstate. simpl.
      by rewrite (mapM_mergeById _ _ _ Hall). }
    split; [done|]. split; [done|]. split; [apply length_map|].
    intros i exp Hi. unfold merged_list. rewrite list_lookup_fmap, Hi. simpl.
    split; [by intros ->|]. intros Hid. rewrite Hid.
    destruct (matching_id_is_object _ _ Hid) as [ps ->].
    eexists. split; [done|]. intros k. rewrite spread2_prop. split.
    + by intros ->.
    + destruct updates as [| | | | | |us]; try done. simpl.
      by destruct (own k us).
Qed.

End UpdateById.

(** An update of the price alone. *)
Lemma updateExperience_sparse_merge_witness :
  let h := testHost true [] in
  let updates := VObj [("price", VNum 12)] in
  is_nullish updates = false ∧
  requests (updateExperience h "e1" updates loadedWorld).2
  = [Update (VObj [("price", VNum 12)]) (Eq "id" (VStr "e1"))] ∧
  (∃ merged,
     state_experiences (updateExperience h "e1" updates loadedWorld).2
     = VArr [merged; otherExperience] ∧
     prop merged "price" = VNum 12 ∧ prop merged "title" = VStr "Hike").
Proof.
  intros h updates.
  destruct (updateExperience_sparse_merge h "e1" updates loadedWorld eq_refl)
    as [(Hreq & _ & _) Hmerge].
  destruct (Hmerge {| data := VNull; error := no_error |}
              [sampleExperience; otherExperience])
    as (_ & Hstate & _ & _); [reflexivity|reflexivity|reflexivity| |].
  { repeat constructor. }
  split; [reflexivity|]. split; [exact Hreq|].
  eexists. split; [exact Hstate|]. split; reflexivity.
Defined.

(** C2 as stated fails twice.  An update that provides [latitude] sends an
    empty payload, although the merge stores the coordinate; and a
    [title] given as undefined, which the payload leaves out, overwrites
    the title of the element in memory. *)
Lemma updateExperience_not_exact :
  let h := testHost true [] in
  let coordinate := VObj [("latitude", VNum 5)] in
  let blank := VObj [("title", VUndefined)] in
  (is_undefined (prop coordinate "latitude") = false ∧
   requests (updateExperience h "e1" coordinate loadedWorld).2
   = [Update (VObj []) (Eq "id" (VStr "e1"))] ∧
   ∃ merged,
     state_experiences (updateExperience h "e1" coordinate loadedWorld).2
     = VArr [merged; otherExperience] ∧
     prop merged "latitude" = VNum 5) ∧
  (requests (updateExperience h "e1" blank loadedWorld).2
   = [Update (VObj []) (Eq "id" (VStr "e1"))] ∧
   ∃ merged,
     state_experiences (updateExperience h "e1" blank loadedWorld).2
     = VArr [merged; otherExperience] ∧
     prop sampleExperience "title" = VStr "Hike" ∧
     prop merged "title" = VUndefined).
Proof.
  intros h coordinate blank. split.
  - split; [reflexivity|]. split; [reflexivity|].
    eexists. split; reflexivity.
  - split; [reflexivity|]. eexists. split; [reflexivity|]. split; reflexivity.
Qed.

(** * Further properties of the module *)

(** ** Stepping and framing *)

Section Stepping.
Context (h : Host).

Lemma thrown_by_failed c : failed c = true ↔ is_Some (thrown_by c).
Proof.
  destruct c as [r|e]; simpl; [|by split; eauto].
  destruct (exn_truthy (error r)); split; eauto; try done; by intros [? ?].
Qed.

Lemma thrown_by_None c :
  thrown_by c = None ↔ ∃ r, c = Normal r ∧ exn_truthy (error r) = false.
Proof.
  destruct c as [r|e]; simpl.
  - destruct (exn_truthy (error r)) eqn:E; split; try done.
    + intros (r' & [= <-] & ?). congruence.
    + eauto.
  - split; [done|]. by intros (r & ? & _).
Qed.

Lemma await_thrown {A} q (k : Response → M A) w e :
  thrown_by (supabase h (requests w) q) = Some e →
  (r ← await h q; throw_if (error r);; k r) w
  = (Throw e, with_requests (q :: requests w) w).
Proof.
  unfold thrown_by, await, throw_if, throw, mbind, M_bind.
  destruct (supabase h (requests w) q) as [r|e']; [|by intros [= <-]].
  destruct (exn_truthy (error r)); [|done]. by intros [= <-].
Qed.

Lemma await_not_thrown {A} q (k : Response → M A) w :
  thrown_by (supabase h (requests w) q) = None →
  ∃ r, supabase h (requests w) q = Normal r ∧ exn_truthy (error r) = false ∧
       (r ← await h q; throw_if (error r);; k r) w
       = k r (with_requests (q :: requests w) w).
Proof.
  intros (r & Hr & Herr)%thrown_by_None. exists r. split; [done|]. split; [done|].
  by apply await_ok.
Qed.

(** Callbacks that cannot throw turn the array methods into the list
    functions. *)
Lemma mapM_c_pure {A B} (f : A → Completion B) (g : A → B) l :
  Forall (λ x, f x = Normal (g x)) l → mapM_c f l = Normal (map g l).
Proof. induction 1 as [|x l Hx _ IH]; simpl; [done|]. by rewrite Hx, IH. Qed.

Lemma filterM_c_pure {A} (f : A → Completion bool) (g : A → bool) l :
  Forall (λ x, f x = Normal (g x)) l → filterM_c f l = Normal (List.filter g l).
Proof. induction 1 as [|x l Hx _ IH]; simpl; [done|]. by rewrite Hx, IH. Qed.

Lemma findM_c_pure {A} (f : A → Completion bool) (g : A → bool) l :
  Forall (λ x, f x = Normal (g x)) l → findM_c f l = Normal (List.find g l).
Proof.
  induction 1 as [|x l Hx _ IH]; simpl; [done|]. rewrite Hx. simpl.
  by destruct (g x).
Qed.

Lemma mapM_c_lookup {A B} (f : A → Completion B) l ys i x :
  mapM_c f l = Normal ys → l !! i = Some x →
  ∃ y, f x = Normal y ∧ ys !! i = Some y.
Proof.
  revert ys i. induction l as [|a l IH]; intros ys i; [done|]. simpl.
  destruct (f a) as [b|] eqn:Hb; [|done]. simpl.
  destruct (mapM_c f l) as [bs|] eqn:Hbs; [|done]. simpl. intros [= <-].
  destruct i as [|i]; simpl.
  - intros [= <-]. eauto.
  - intros Hi. by apply (IH bs).
Qed.

Lemma mapM_c_Normal_length {A B} (f : A → Completion B) l ys :
  mapM_c f l = Normal ys → length ys = length l.
Proof.
  revert ys. induction l as [|a l IH]; intros ys; simpl; [by intros [= <-]|].
  destruct (f a); [|done]. simpl. destruct (mapM_c f l); [|done]. simpl.
  intros [= <-]. simpl. f_equal. by apply IH.
Qed.

(** Framing: which component of the world a computation leaves alone. *)
Lemma preserves_bind {A B X} (proj : World → X) (m : M A) (f : A → M B) :
  preserves proj m → (∀ a, preserves proj (f a)) → preserves proj (m ≫= f).
Proof.
  intros Hm Hf w. unfold mbind, M_bind. specialize (Hm w).
  destruct (m w) as [[a|e] w1]; simpl in *; [|done]. by rewrite Hf.
Qed.

Lemma preserves_try_catch {A X} (proj : World → X) (body : M A) handler :
  preserves proj body → (∀ e, preserves proj (handler e)) →
  preserves proj (try_catch body handler).
Proof.
  intros Hb Hh w. unfold try_catch. specialize (Hb w).
  destruct (body w) as [[a|e] w1]; simpl in *; [done|]. by rewrite Hh.
Qed.

Lemma preserves_if {A X} (proj : World → X) (b : bool) (m1 m2 : M A) :
  preserves proj m1 → preserves proj m2 → preserves proj (if b then m1 else m2).
Proof. by destruct b. Qed.

Lemma preserves_throw_if {X} (proj : World → X) e : preserves proj (throw_if e).
Proof. intros w. unfold throw_if. by destruct (exn_truthy e). Qed.

Lemma preserves_getSavedExperiences {X} (proj : World → X) :
  (∀ w w', quiet w w' → proj w' = proj w) →
  preserves proj (getSavedExperiences h).
Proof.
  intros Hq w. destruct (getSavedExperiences_run h w) as (w' & -> & Hw).
  simpl. by apply Hq.
Qed.

Lemma preserves_updateExperiences {X} (proj : World → X) f :
  (∀ v w, proj (with_experiences v w) = proj w) →
  (∀ e w, proj (with_render_error e w) = proj w) →
  preserves proj (updateExperiences f).
Proof.
  intros H1 H2 w. unfold updateExperiences.
  destruct (f (state_experiences w)); simpl; [apply H1|apply H2].
Qed.

(** After a remote call, when the rest issues no request, the log has grown
    by that one request. *)
Lemma requests_await {A} q (k : Response → M A) w :
  (∀ r, preserves requests (k r)) →
  requests ((await h q ≫= k) w).2 = q :: requests w.
Proof.
  intros Hk. unfold mbind, M_bind, await.
  destruct (supabase h (requests w) q) as [r|e]; [|done]. by rewrite Hk.
Qed.

Lemma proj_try_catch {A X} (proj : World → X) (body : M A) handler w :
  (∀ e, preserves proj (handler e)) →
  proj (try_catch body handler w).2 = proj (body w).2.
Proof.
  intros Hh. unfold try_catch. destruct (body w) as [[a|e] w1]; [done|].
  simpl. apply Hh.
Qed.

End Stepping.

(** Leaves and structure of a framing goal. *)
Ltac preserve :=
  repeat match goal with
    | |- ∀ _, _ => intro
    | |- preserves _ (try_catch _ _) => apply preserves_try_catch
    | |- preserves _ (mbind _ _) => apply preserves_bind
    | |- preserves _ (if _ then _ else _) => apply preserves_if
    | |- preserves _ (throw_if _) => apply preserves_throw_if
    | |- preserves _ (getSavedExperiences _) =>
        apply preserves_getSavedExperiences; by intros ?? (? & ? & ? & ? & ? & ? & ? & ?)
    | |- preserves _ (updateExperiences _) => by apply preserves_updateExperiences
    | |- preserves _ (match ?x with _ => _ end) => destruct x
    end;
  try (by intros ?).

Section StorageLeaves.
Context (h : Host).

Lemma preserves_setItem {X} (proj : World → X) key value :
  (∀ items log w, proj (with_storage items log w) = proj w) →
  preserves proj (localStorage_setItem h key value).
Proof.
  intros Hp w. unfold localStorage_setItem.
  destruct (ls_denied w); [apply Hp|]. destruct (quota_ok h _); apply Hp.
Qed.

Lemma try_finally_setIsLoading {A} (body : M A) w :
  try_finally body (setIsLoading false) w
  = ((body w).1, with_isLoading false (body w).2).
Proof. unfold try_finally, setIsLoading. by destruct (body w). Qed.

End StorageLeaves.

(** ** The local fallback store and the mapping of rows *)

Section LocalStore.
Context (h : Host).

(** X1.  Reading the fallback never raises and changes nothing but the
    console and the access log.  Its value is the built-in default list
    when storage is denied, when the key is missing or holds the empty
    string, or when the text does not parse; otherwise it is the parsed
    value, whatever that is. *)
Theorem getSavedExperiences_defaults w :
  ∃ v w', getSavedExperiences h w = (Normal v, w') ∧ quiet w w' ∧
    ((ls_denied w = true ∨ ls_items w !! "experiences" = None
      ∨ ls_items w !! "experiences" = Some ""
      ∨ ∃ s e, ls_items w !! "experiences" = Some s ∧ JSON_parse h s = Throw e) →
     v = experiences h) ∧
    (∀ s parsed,
       ls_denied w = false → ls_items w !! "experiences" = Some s → s ≠ "" →
       JSON_parse h s = Normal parsed → v = parsed).
Proof.
  destruct (getSavedExperiences_run h w) as (w' & Hrun & Hq).
  exists (fallback_list h w), w'. split; [done|]. split; [done|].
  unfold fallback_list. split.
  - intros [->|[->|[->|(s & e & -> & Hs)]]]; try done.
    + by destruct (ls_denied w).
    + by destruct (ls_denied w).
    + destruct (ls_denied w); [done|]. destruct (String.eqb s ""); [done|].
      by rewrite Hs.
  - intros s parsed -> -> Hs ->.
    destruct (String.eqb s "") eqn:E; [by apply eqb_true_iff in E|done].
Qed.

(** X2.  Mapping the rows of a response ([data.map(mapDbExperienceToModel)])
    is all or nothing.  When the mapper accepts every row, each is mapped
    in place and the list keeps its length.  Otherwise the whole mapping
    throws the TypeError of the first row it rejects: that of reading [id]
    on undefined or null, or that of converting a coordinate that has no
    primitive form. *)
Theorem map_rows_all_or_nothing l :
  (Forall (λ row, mappable row = true) l ∧
   ∃ mapped, js_map (mapDbExperienceToModel h) (VArr l) = Normal (VArr mapped) ∧
     length mapped = length l ∧
     ∀ i row, l !! i = Some row →
       ∃ e, mapDbExperienceToModel h row = Normal e ∧ mapped !! i = Some e)
  ∨ (∃ (before : list JsVal) row after,
       l = (before ++ row :: after)%list ∧
       Forall (λ row, mappable row = true) before ∧ mappable row = false ∧
       js_map (mapDbExperienceToModel h) (VArr l) = Throw (mapper_error row)).
Proof.
  unfold js_map. induction l as [|row l IH].
  - left. split; [constructor|]. exists []. by repeat split.
  - destruct (mappable row) eqn:Hrow.
    + destruct (mapDb_mappable h row Hrow) as (lat & lon & _ & _ & Hmap).
      destruct IH as [(Hall & mapped & Hm & Hlen & Hlook)
                     |(before & bad & after & -> & Hbefore & Hbad & Hthrow)].
      * left. split; [by constructor|].
        destruct (mapM_mapDb_total h (row :: l)) as [zs Hzs]; [by constructor|].
        exists zs. rewrite Hzs. split; [done|].
        split; [by apply (mapM_c_Normal_length _ _ _ Hzs)|].
        intros i r Hi. by apply (mapM_c_lookup _ _ _ _ _ Hzs).
      * right. exists (row :: before), bad, after.
        split; [done|]. split; [by constructor|]. split; [done|].
        simpl. rewrite Hmap. simpl.
        destruct (mapM_c (mapDbExperienceToModel h) (before ++ bad :: after));
          [done|].
        simpl in *. by injection Hthrow as ->.
    + right. exists [], row, l. split; [done|]. split; [constructor|].
      split; [done|]. simpl. by rewrite (mapDb_unmappable h row Hrow).
Qed.

End LocalStore.

(** ** More on the initial fetch *)

Section InitialFetchEdges.
Context (h : Host).

(** X3.  Whatever the remote store and [localStorage] do, the initial fetch
    ends with the loading flag false and has issued exactly one request,
    the select of the full list. *)
Theorem fetchExperiences_settles w :
  state_isLoading (fetchExperiences h w).2 = false ∧
  requests (fetchExperiences h w).2 = fetchAll :: requests w.
Proof.
  unfold fetchExperiences.
  erewrite bind_Normal by reflexivity. erewrite bind_Normal by reflexivity.
  rewrite try_finally_setIsLoading. split; [reflexivity|].
  change (requests (?a, with_isLoading false ?b).2) with (requests b).
  rewrite proj_try_catch by preserve.
  rewrite requests_await; [done|].
  preserve. by apply preserves_setItem.
Qed.

End InitialFetchEdges.

Section InitialFetchCache.
Context (h : Host).

(** X4.  When the remote fetch succeeds but [localStorage] rejects the
    write over quota, the initial fetch reports a load failure: the error
    message is set and the store is as before.  The freshly fetched list
    stays in memory only if the fallback list is empty; a non-empty
    fallback (the stale cache) replaces it. *)
Theorem fetchExperiences_cache_rejected w r rows mapped :
  supabase h (requests w) fetchAll = Normal r →
  exn_truthy (error r) = false →
  data r = VArr rows →
  mapM_c (mapDbExperienceToModel h) rows = Normal mapped →
  ls_denied w = false →
  quota_ok h (<["experiences" := JSON_stringify h (VArr mapped) None]> (ls_items w)) = false →
  state_error (fetchExperiences h w).2 = Some "Failed to load experiences" ∧
  ls_items (fetchExperiences h w).2 = ls_items w ∧
  (∀ x xs, fallback_list h w = VArr (x :: xs) →
     (fetchExperiences h w).1 = Normal () ∧
     state_experiences (fetchExperiences h w).2 = VArr (x :: xs)) ∧
  (fallback_list h w = VArr [] →
     (fetchExperiences h w).1 = Normal () ∧
     state_experiences (fetchExperiences h w).2 = VArr mapped).
Proof.
  intros Hr Herr Hdata Hmap Hden Hquota.
  unfold fetchExperiences.
  erewrite bind_Normal by reflexivity. erewrite bind_Normal by reflexivity.
  rewrite try_finally_setIsLoading.
  set (w0 := with_error None (with_isLoading true w)).
  set (text := JSON_stringify h (VArr mapped) None) in *.
  set (w1 := with_storage (ls_items w) (SetItem "experiences" text :: ls_log w)
               (with_experiences (VArr mapped)
                  (with_requests (Select COLUMNS NoFilter Rows :: requests w) w0))).
  set (w2 := with_error (Some "Failed to load experiences")
               (with_console
                  (("Error fetching experiences:", QuotaExceededError) :: console w1) w1)).
  destruct (getSavedExperiences_run h w2) as (w3 & Hsaved & Hq).
  assert (fallback_list h w2 = fallback_list h w) as Hfb by (by apply fallback_list_ext).
  rewrite Hfb in Hsaved.
  erewrite try_catch_Throw; cycle 1.
  { rewrite (await_ok h _ _ _ r) by done.
    rewrite Hdata. simpl. rewrite Hmap. simpl.
    erewrite bind_Normal by reflexivity. erewrite bind_Normal by reflexivity.
    unfold localStorage_setItem. simpl. rewrite Hden. fold text. rewrite Hquota.
    reflexivity. }
  erewrite bind_Normal by reflexivity. erewrite bind_Normal by reflexivity.
  fold w1 w2. erewrite bind_Normal by exact Hsaved.
  destruct Hq as (_ & _ & Hitems & _ & Hexp & _ & Herror & _).
  assert (∃ c w4,
            (lift (length_gt0 h (fallback_list h w)) ≫=
               λ positive : bool,
                 if positive then setExperiences (fallback_list h w) else mret ()) w3
            = (c, w4) ∧
            state_error w4 = state_error w3 ∧ ls_items w4 = ls_items w3 ∧
            (∀ x xs, fallback_list h w = VArr (x :: xs) →
               c = Normal () ∧ state_experiences w4 = VArr (x :: xs)) ∧
            (fallback_list h w = VArr [] →
               c = Normal () ∧ state_experiences w4 = state_experiences w3))
    as (c & w4 & -> & He & Hi & Hsome & Hnone).
  { unfold lift, mbind, M_bind.
    destruct (length_gt0 h (fallback_list h w)) as [[|]|e] eqn:Hlen; simpl;
      eexists _, _; (split; [done|]); (split; [done|]); (split; [done|]); split;
      try (intros x xs Hl); try (intros Hl); rewrite Hl in Hlen; try done;
      by rewrite Hl. }
  simpl. rewrite He, Hi, Herror, Hitems. split; [done|]. split; [done|]. split.
  - intros x xs Hl. by apply Hsome.
  - intros Hl. destruct (Hnone Hl) as [-> ->]. by rewrite Hexp.
Qed.

End InitialFetchCache.

Lemma fetchExperiences_cache_rejected_witness :
  let h := hostWith (test_remote true []) false (VArr []) in
  let r := {| data := VArr []; error := no_error |} in
  (supabase h (requests cachedWorld) fetchAll = Normal r ∧
   exn_truthy (error r) = false ∧ data r = VArr [] ∧
   mapM_c (mapDbExperienceToModel h) [] = Normal [] ∧
   ls_denied cachedWorld = false ∧
   quota_ok h (<["experiences" := JSON_stringify h (VArr []) None]> (ls_items cachedWorld))
   = false) ∧
  fallback_list h cachedWorld = VArr [VObj []; VObj []; VObj []] ∧
  state_error (fetchExperiences h cachedWorld).2 = Some "Failed to load experiences" ∧
  state_experiences (fetchExperiences h cachedWorld).2 = VArr [VObj []; VObj []; VObj []].
Proof.
  intros h r. split; [by repeat split|].
  assert (fallback_list h cachedWorld = VArr [VObj []; VObj []; VObj []]) as Hfb
    by reflexivity.
  split; [exact Hfb|].
  destruct (fetchExperiences_cache_rejected h cachedWorld r [] [])
    as (Herr & _ & Hsome & _); try reflexivity.
  split; [exact Herr|]. by destruct (Hsome _ _ Hfb).
Defined.

Section InitialFetchEmpty.
Context (h : Host).

(** X5.  When the initial fetch fails and the fallback list is empty, the
    in-memory list is left as it was; the error message is set and the
    call completes normally. *)
Theorem fetchExperiences_nothing_cached w :
  failed (supabase h (requests w) fetchAll) = true →
  fallback_list h w = VArr [] →
  (fetchExperiences h w).1 = Normal () ∧
  state_experiences (fetchExperiences h w).2 = state_experiences w ∧
  state_error (fetchExperiences h w).2 = Some "Failed to load experiences" ∧
  ls_items (fetchExperiences h w).2 = ls_items w.
Proof.
  intros [e He]%thrown_by_failed Hfb.
  unfold fetchExperiences.
  erewrite bind_Normal by reflexivity. erewrite bind_Normal by reflexivity.
  rewrite try_finally_setIsLoading.
  set (w0 := with_error None (with_isLoading true w)).
  set (w1 := with_requests (Select COLUMNS NoFilter Rows :: requests w0) w0).
  set (w2 := with_error (Some "Failed to load experiences")
               (with_console (("Error fetching experiences:", e) :: console w1) w1)).
  destruct (getSavedExperiences_run h w2) as (w3 & Hsaved & Hq).
  assert (fallback_list h w2 = VArr []) as Hfb2.
  { rewrite <- Hfb. by apply fallback_list_ext. }
  rewrite Hfb2 in Hsaved.
  erewrite try_catch_Throw by (apply await_thrown; exact He).
  erewrite bind_Normal by reflexivity. erewrite bind_Normal by reflexivity.
  fold w1 w2. erewrite bind_Normal by exact Hsaved.
  erewrite bind_Normal by reflexivity. simpl.
  destruct Hq as (_ & _ & -> & _ & -> & _ & -> & _). done.
Qed.

End InitialFetchEmpty.

Lemma fetchExperiences_nothing_cached_witness :
  let h := testHost false [] in
  (failed (supabase h (requests loadedWorld) fetchAll) = true ∧
   fallback_list h loadedWorld = VArr []) ∧
  (fetchExperiences h loadedWorld).1 = Normal () ∧
  state_experiences (fetchExperiences h loadedWorld).2
  = VArr [sampleExperience; otherExperience] ∧
  state_error (fetchExperiences h loadedWorld).2 = Some "Failed to load experiences".
Proof.
  intros h. split; [by split|].
  destruct (fetchExperiences_nothing_cached h loadedWorld) as (Hrun & Hlist & Herr & _);
    [reflexivity|reflexivity|].
  split; [exact Hrun|]. split; [exact Hlist|exact Herr].
Defined.

(** ** Adding an experience *)

Section Adding.
Context (h : Host).

(** X6.  When the insert succeeds and answers a row that the mapper
    accepts, [addExperience] returns the mapping of that row, whose id is
    the one the store answered, and appends it to the in-memory list, which
    grows by exactly one; the only other change to the world is the logged
    request. *)
Theorem addExperience_appends experience payload w r l :
  insertPayload experience = Normal payload →
  supabase h (requests w) (insertOne payload) = Normal r →
  exn_truthy (error r) = false →
  mappable (data r) = true →
  state_experiences w = VArr l →
  ∃ new,
    mapDbExperienceToModel h (data r) = Normal new ∧
    addExperience h experience w
    = (Normal new,
       with_experiences (VArr (l ++ [new]))
         (with_requests (insertOne payload :: requests w) w)) ∧
    prop new "id" = prop (data r) "id" ∧
    length (l ++ [new]) = S (length l).
Proof.
  intros Hpayload Hr Herr Hrow Hstate.
  destruct (mapDb_mappable h (data r) Hrow) as (lat & lon & _ & _ & Hnew).
  eexists. split; [exact Hnew|]. split; [|split; [done|]].
  - unfold addExperience. apply try_catch_Normal.
    erewrite bind_Normal by (unfold lift; by rewrite Hpayload).
    rewrite (await_ok h _ _ _ r) by done.
    erewrite bind_Normal by (unfold lift; by rewrite Hnew).
    erewrite bind_Normal; [reflexivity|].
    unfold updateExperiences. simpl. by rewrite Hstate.
  - rewrite length_app. simpl. lia.
Qed.

(** X7.  When the insert fails, [addExperience] raises that very error to
    the caller after logging it and showing the toast 'Failed to add
    experience'; the in-memory list and the store are untouched. *)
Theorem addExperience_reraises experience payload w e :
  insertPayload experience = Normal payload →
  thrown_by (supabase h (requests w) (insertOne payload)) = Some e →
  addExperience h experience w
  = (Throw e,
     with_toasts ((ToastError, "Failed to add experience") :: toasts w)
       (with_console (("Error adding experience:", e) :: console w)
          (with_requests (insertOne payload :: requests w) w))).
Proof.
  intros Hpayload He. unfold addExperience.
  erewrite try_catch_Throw; cycle 1.
  { erewrite bind_Normal by (unfold lift; by rewrite Hpayload).
    apply await_thrown. exact He. }
  reflexivity.
Qed.

Lemma addExperience_unmapped_aux experience payload w r :
  insertPayload experience = Normal payload →
  supabase h (requests w) (insertOne payload) = Normal r →
  exn_truthy (error r) = false →
  mappable (data r) = false →
  addExperience h experience w
  = (Throw (mapper_error (data r)),
     with_toasts ((ToastError, "Failed to add experience") :: toasts w)
       (with_console (("Error adding experience:", mapper_error (data r)) :: console w)
          (with_requests (insertOne payload :: requests w) w))).
Proof.
  intros Hpayload Hr Herr Hrow. unfold addExperience.
  erewrite try_catch_Throw; cycle 1.
  { erewrite bind_Normal by (unfold lift; by rewrite Hpayload).
    rewrite (await_ok h _ _ _ r) by done.
    apply bind_Throw. unfold lift. by rewrite (mapDb_unmappable h _ Hrow). }
  reflexivity.
Qed.

(** X28.  When the insert succeeds but the mapper rejects what the store
    answers, the row is in the remote table and not in the in-memory list:
    [addExperience] raises the TypeError of the mapper after logging it and
    showing the failure toast. *)
Theorem addExperience_unmapped_answer experience payload w r :
  insertPayload experience = Normal payload →
  supabase h (requests w) (insertOne payload) = Normal r →
  exn_truthy (error r) = false →
  mappable (data r) = false →
  addExperience h experience w
  = (Throw (mapper_error (data r)),
     with_toasts ((ToastError, "Failed to add experience") :: toasts w)
       (with_console (("Error adding experience:", mapper_error (data r)) :: console w)
          (with_requests (insertOne payload :: requests w) w))).
Proof. apply addExperience_unmapped_aux. Qed.

End Adding.

Lemma addExperience_appends_witness :
  let h := hostWith (accepting_remote []) true (VArr []) in
  ∃ payload r new,
    (insertPayload draftExperience = Normal payload ∧
     supabase h (requests loadedWorld) (insertOne payload) = Normal r ∧
     exn_truthy (error r) = false ∧ mappable (data r) = true ∧
     state_experiences loadedWorld = VArr [sampleExperience; otherExperience]) ∧
    (addExperience h draftExperience loadedWorld).1 = Normal new ∧
    prop new "id" = VStr "srv-1" ∧
    state_experiences (addExperience h draftExperience loadedWorld).2
    = VArr [sampleExperience; otherExperience; new].
Proof.
  intros h.
  edestruct (addExperience_appends h draftExperience) with (w := loadedWorld)
    as (new & Hnew & Hrun & Hid & _);
    [reflexivity|reflexivity|reflexivity|reflexivity|reflexivity|].
  eexists _, _, new. split; [by repeat split|].
  rewrite Hrun. split; [done|]. split; [|done].
  rewrite Hid. reflexivity.
Defined.

Lemma addExperience_reraises_witness :
  let h := testHost false [] in
  ∃ payload e,
    (insertPayload draftExperience = Normal payload ∧
     thrown_by (supabase h (requests loadedWorld) (insertOne payload)) = Some e) ∧
    (addExperience h draftExperience loadedWorld).1 = Throw e ∧
    state_experiences (addExperience h draftExperience loadedWorld).2
    = VArr [sampleExperience; otherExperience] ∧
    toasts (addExperience h draftExperience loadedWorld).2
    = [(ToastError, "Failed to add experience")].
Proof.
  intros h.
  eexists _, _. split; [split; reflexivity|].
  erewrite (addExperience_reraises h draftExperience) by reflexivity.
  by repeat split.
Defined.

Lemma addExperience_unmapped_answer_witness :
  let h := hostWith (answering_remote []) true (VArr []) in
  let r := {| data := VNull; error := no_error |} in
  ∃ payload,
    (insertPayload draftExperience = Normal payload ∧
     supabase h (requests loadedWorld) (insertOne payload) = Normal r ∧
     exn_truthy (error r) = false ∧ mappable (data r) = false) ∧
    (addExperience h draftExperience loadedWorld).1
    = Throw (TypeError "Cannot read properties of nullish (reading 'id')") ∧
    requests (addExperience h draftExperience loadedWorld).2 = [insertOne payload] ∧
    state_experiences (addExperience h draftExperience loadedWorld).2
    = VArr [sampleExperience; otherExperience].
Proof.
  intros h r.
  eexists. split; [by repeat split|].
  erewrite (addExperience_unmapped_answer h draftExperience _ loadedWorld r)
    by reflexivity.
  by repeat split.
Defined.

(** ** Deleting and updating *)

Section Deleting.
Context (h : Host).

Lemma filter_without_id id l :
  records l →
  filterM_c (λ exp, exp_id ← get exp "id"; Normal (negb (strict_eq_str exp_id id))) l
  = Normal (List.filter (λ exp, negb (has_id id exp)) l).
Proof.
  intros Hl. apply filterM_c_pure. eapply Forall_impl; [exact Hl|].
  intros exp Hexp. simpl in Hexp. by rewrite (get_ok _ _ Hexp).
Qed.

Lemma filter_lacking id l :
  Forall (λ exp, is_nullish exp = false ∧ strict_eq_str (prop exp "id") id = false) l →
  List.filter (λ exp, negb (has_id id exp)) l = l.
Proof.
  induction 1 as [|exp l [_ Hid] _ IH]; simpl; [done|].
  unfold has_id at 1. by rewrite Hid, IH.
Qed.

(** X8.  When the remote delete succeeds, [deleteExperience] removes from
    the in-memory list exactly the elements whose id is the given one:
    what remains is the other elements, in their order, and none of them
    has that id. *)
Theorem deleteExperience_removes id w r l :
  supabase h (requests w) (Delete (byId id)) = Normal r →
  exn_truthy (error r) = false →
  state_experiences w = VArr l →
  records l →
  let kept := List.filter (λ exp, negb (has_id id exp)) l in
  deleteExperience h id w
  = (Normal (),
     with_experiences (VArr kept) (with_requests (Delete (byId id) :: requests w) w)) ∧
  Forall (λ exp, has_id id exp = false) kept ∧
  (∀ exp, exp ∈ l → has_id id exp = false → exp ∈ kept) ∧
  (length kept ≤ length l)%nat.
Proof.
  intros Hr Herr Hstate Hl kept. split; [|split; [|split]].
  - unfold deleteExperience. apply try_catch_Normal.
    rewrite (await_ok h _ _ _ r) by done.
    unfold updateExperiences. simpl. rewrite Hstate. simpl.
    by rewrite (filter_without_id id l Hl).
  - apply Forall_forall. intros exp [_ Hexp]%list_elem_of_In%filter_In.
    by destruct (has_id id exp).
  - intros exp Hin Hid. apply list_elem_of_In, filter_In.
    split; [by apply list_elem_of_In|]. by rewrite Hid.
  - apply List.filter_length_le.
Qed.

Lemma deleteExperience_reraises_aux id w e :
  thrown_by (supabase h (requests w) (Delete (byId id))) = Some e →
  deleteExperience h id w
  = (Throw e,
     with_toasts ((ToastError, "Failed to delete experience") :: toasts w)
       (with_console (("Error deleting experience:", e) :: console w)
          (with_requests (Delete (byId id) :: requests w) w))).
Proof.
  intros He. unfold deleteExperience.
  erewrite try_catch_Throw; cycle 1.
  { apply await_thrown. exact He. }
  reflexivity.
Qed.

(** X9.  When the remote delete fails, [deleteExperience] raises that very
    error after logging it and showing the toast 'Failed to delete
    experience'; the in-memory list and the store are untouched. *)
Theorem deleteExperience_reraises id w e :
  thrown_by (supabase h (requests w) (Delete (byId id))) = Some e →
  (deleteExperience h id w).1 = Throw e ∧
  toasts (deleteExperience h id w).2
  = (ToastError, "Failed to delete experience") :: toasts w ∧
  console (deleteExperience h id w).2
  = ("Error deleting experience:", e) :: console w ∧
  state_experiences (deleteExperience h id w).2 = state_experiences w ∧
  ls_items (deleteExperience h id w).2 = ls_items w ∧
  requests (deleteExperience h id w).2 = Delete (byId id) :: requests w.
Proof. intros He. by rewrite (deleteExperience_reraises_aux id w e He). Qed.

(** X10.  Deleting an id that no element of the in-memory list has leaves
    that list as it is, whether the remote delete succeeds or fails. *)
Theorem deleteExperience_absent_id id w :
  lacks_id id (state_experiences w) →
  state_experiences (deleteExperience h id w).2 = state_experiences w.
Proof.
  intros (l & Hstate & Hall).
  destruct (thrown_by (supabase h (requests w) (Delete (byId id)))) as [e|] eqn:He.
  - by rewrite (deleteExperience_reraises_aux id w e He).
  - apply thrown_by_None in He as (r & Hr & Herr).
    assert (records l) as Hl.
    { eapply Forall_impl; [exact Hall|]. by intros exp [? _]. }
    unfold deleteExperience.
    erewrite try_catch_Normal; cycle 1.
    { rewrite (await_ok h _ _ _ r) by done.
      unfold updateExperiences. simpl. rewrite Hstate. simpl.
      rewrite (filter_without_id id l Hl). simpl.
      rewrite (filter_lacking id l Hall). reflexivity. }
    simpl. by rewrite Hstate.
Qed.

End Deleting.

Lemma deleteExperience_removes_witness :
  let h := testHost true [] in
  let r := {| data := VNull; error := no_error |} in
  (supabase h (requests loadedWorld) (Delete (byId "e1")) = Normal r ∧
   exn_truthy (error r) = false ∧
   state_experiences loadedWorld = VArr [sampleExperience; otherExperience] ∧
   records [sampleExperience; otherExperience]) ∧
  (deleteExperience h "e1" loadedWorld).1 = Normal () ∧
  state_experiences (deleteExperience h "e1" loadedWorld).2 = VArr [otherExperience].
Proof.
  intros h r.
  assert (records [sampleExperience; otherExperience]) as Hl by (by repeat constructor).
  split; [by repeat split|].
  destruct (deleteExperience_removes h "e1" loadedWorld r
              [sampleExperience; otherExperience] eq_refl eq_refl eq_refl Hl)
    as (Hrun & _).
  rewrite Hrun. by split.
Defined.

Lemma deleteExperience_reraises_witness :
  let h := testHost false [] in
  let e := ThrownValue (VObj [("message", VStr "TypeError: Failed to fetch")]) in
  thrown_by (supabase h (requests loadedWorld) (Delete (byId "e1"))) = Some e ∧
  (deleteExperience h "e1" loadedWorld).1 = Throw e ∧
  state_experiences (deleteExperience h "e1" loadedWorld).2
  = VArr [sampleExperience; otherExperience].
Proof.
  intros h e.
  destruct (deleteExperience_reraises h "e1" loadedWorld e eq_refl)
    as (Hrun & _ & _ & Hstate & _).
  split; [reflexivity|]. split; [exact Hrun|exact Hstate].
Defined.

Lemma deleteExperience_absent_id_witness :
  let h := testHost true [] in
  lacks_id "e9" (state_experiences loadedWorld) ∧
  state_experiences (deleteExperience h "e9" loadedWorld).2
  = VArr [sampleExperience; otherExperience].
Proof.
  intros h.
  assert (lacks_id "e9" (state_experiences loadedWorld)) as Hl.
  { eexists. split; [reflexivity|]. by repeat constructor. }
  split; [exact Hl|].
  apply (deleteExperience_absent_id h "e9" loadedWorld Hl).
Defined.

Section Updating.
Context (h : Host).

Lemma merged_list_lacking id updates l :
  Forall (λ exp, is_nullish exp = false ∧ strict_eq_str (prop exp "id") id = false) l →
  merged_list id updates l = l.
Proof.
  unfold merged_list. induction 1 as [|exp l [_ Hid] _ IH]; simpl; [done|].
  by rewrite Hid, IH.
Qed.

Lemma updateExperience_reraises_aux id updates w e :
  is_nullish updates = false →
  thrown_by (supabase h (requests w)
               (Update (VObj (sparse updates sent_fields [])) (byId id))) = Some e →
  updateExperience h id updates w
  = (Throw e,
     with_toasts ((ToastError, "Failed to update experience") :: toasts w)
       (with_console (("Error updating experience:", e) :: console w)
          (with_requests
             (Update (VObj (sparse updates sent_fields [])) (byId id) :: requests w) w))).
Proof.
  intros Hobj He. unfold updateExperience.
  erewrite try_catch_Throw; cycle 1.
  { erewrite bind_Normal by (unfold lift; by rewrite (updatePayload_ok _ Hobj)).
    apply await_thrown. exact He. }
  reflexivity.
Qed.

(** X11.  When the remote update fails, [updateExperience] raises that
    very error after logging it and showing the toast 'Failed to update
    experience'; nothing is merged into the in-memory list. *)
Theorem updateExperience_reraises id updates w e :
  is_nullish updates = false →
  thrown_by (supabase h (requests w)
               (Update (VObj (sparse updates sent_fields [])) (byId id))) = Some e →
  (updateExperience h id updates w).1 = Throw e ∧
  toasts (updateExperience h id updates w).2
  = (ToastError, "Failed to update experience") :: toasts w ∧
  console (updateExperience h id updates w).2
  = ("Error updating experience:", e) :: console w ∧
  state_experiences (updateExperience h id updates w).2 = state_experiences w ∧
  ls_items (updateExperience h id updates w).2 = ls_items w.
Proof.
  intros Hobj He. by rewrite (updateExperience_reraises_aux id updates w e Hobj He).
Qed.

(** X12.  Updating an id that no element of the in-memory list has leaves
    that list as it is, whether the remote update succeeds or fails; the
    update request is sent all the same. *)
Theorem updateExperience_absent_id id updates w :
  is_nullish updates = false →
  lacks_id id (state_experiences w) →
  state_experiences (updateExperience h id updates w).2 = state_experiences w ∧
  requests (updateExperience h id updates w).2
  = Update (VObj (sparse updates sent_fields [])) (byId id) :: requests w.
Proof.
  intros Hobj (l & Hstate & Hall).
  destruct (thrown_by (supabase h (requests w)
              (Update (VObj (sparse updates sent_fields [])) (byId id)))) as [e|] eqn:He.
  - by rewrite (updateExperience_reraises_aux id updates w e Hobj He).
  - apply thrown_by_None in He as (r & Hr & Herr).
    assert (records l) as Hl.
    { eapply Forall_impl; [exact Hall|]. by intros exp [? _]. }
    remember (sparse updates sent_fields []) as d eqn:Hd.
    unfold updateExperience.
    erewrite try_catch_Normal; cycle 1.
    { erewrite bind_Normal
        by (unfold lift; by rewrite (updatePayload_ok _ Hobj), <- Hd).
      rewrite (await_ok h _ _ _ r) by done.
      unfold updateExperiences.
      change (state_experiences (with_requests ?q w)) with (state_experiences w).
      rewrite Hstate.
      change (js_map (mergeById id updates) (VArr l))
        with (VArr <$> mapM_c (mergeById id updates) l).
      rewrite (mapM_mergeById _ _ _ Hl), (merged_list_lacking _ _ _ Hall).
      reflexivity. }
    split; [|reflexivity].
    change (state_experiences (?c, with_experiences ?v ?w0).2) with v.
    by rewrite Hstate.
Qed.

(** X13.  An argument that is undefined or null makes [addExperience] and
    [updateExperience] raise a TypeError before any request is issued; the
    failure toast is shown and the in-memory list is untouched. *)
Theorem null_argument_rejected v id w :
  is_nullish v = true →
  (∃ m, (addExperience h v w).1 = Throw (TypeError m)) ∧
  requests (addExperience h v w).2 = requests w ∧
  toasts (addExperience h v w).2 = (ToastError, "Failed to add experience") :: toasts w ∧
  state_experiences (addExperience h v w).2 = state_experiences w ∧
  (∃ m, (updateExperience h id v w).1 = Throw (TypeError m)) ∧
  requests (updateExperience h id v w).2 = requests w ∧
  toasts (updateExperience h id v w).2
  = (ToastError, "Failed to update experience") :: toasts w ∧
  state_experiences (updateExperience h id v w).2 = state_experiences w.
Proof.
  intros Hv. destruct v; try done; by repeat split; eauto.
Qed.

End Updating.

Lemma updateExperience_reraises_witness :
  let h := testHost false [] in
  let updates := VObj [("price", VNum 12)] in
  let e := ThrownValue (VObj [("message", VStr "TypeError: Failed to fetch")]) in
  (is_nullish updates = false ∧
   thrown_by (supabase h (requests loadedWorld)
                (Update (VObj (sparse updates sent_fields [])) (byId "e1"))) = Some e) ∧
  (updateExperience h "e1" updates loadedWorld).1 = Throw e ∧
  state_experiences (updateExperience h "e1" updates loadedWorld).2
  = VArr [sampleExperience; otherExperience].
Proof.
  intros h updates e.
  destruct (updateExperience_reraises h "e1" updates loadedWorld e eq_refl eq_refl)
    as (Hrun & _ & _ & Hstate & _).
  split; [by split|]. split; [exact Hrun|exact Hstate].
Defined.

Lemma updateExperience_absent_id_witness :
  let h := testHost true [] in
  let updates := VObj [("price", VNum 12)] in
  (is_nullish updates = false ∧ lacks_id "e9" (state_experiences loadedWorld)) ∧
  state_experiences (updateExperience h "e9" updates loadedWorld).2
  = VArr [sampleExperience; otherExperience] ∧
  requests (updateExperience h "e9" updates loadedWorld).2
  = [Update (VObj [("price", VNum 12)]) (byId "e9")].
Proof.
  intros h updates.
  assert (lacks_id "e9" (state_experiences loadedWorld)) as Hl.
  { eexists. split; [reflexivity|]. by repeat constructor. }
  split; [by split|].
  apply (updateExperience_absent_id h "e9" updates loadedWorld eq_refl Hl).
Defined.

Lemma null_argument_rejected_witness :
  let h := testHost true [] in
  is_nullish VNull = true ∧
  (∃ m, (addExperience h VNull loadedWorld).1 = Throw (TypeError m)) ∧
  requests (addExperience h VNull loadedWorld).2 = [] ∧
  (∃ m, (updateExperience h "e1" VNull loadedWorld).1 = Throw (TypeError m)) ∧
  requests (updateExperience h "e1" VNull loadedWorld).2 = [].
Proof.
  intros h. split; [reflexivity|].
  destruct (null_argument_rejected h VNull "e1" loadedWorld eq_refl)
    as (Hadd & Hreq & _ & _ & Hupd & Hreq' & _).
  split; [exact Hadd|]. split; [exact Hreq|]. split; [exact Hupd|exact Hreq'].
Defined.

(** ** Import and export *)

Section ImportExport.
Context (h : Host).

(** X14.  When the text parses to an array of records and both the bulk
    insert and the re-fetch succeed, import sends the row literal of every
    record in one insert, then selects the full list, replaces the
    in-memory list by the mapped rows and reports success; nothing else in
    the world changes. *)
Theorem importExperiences_replaces_list jsonString w items payloads r1 r2 rows mapped :
  JSON_parse h jsonString = Normal (VArr items) →
  mapM_c insertPayload items = Normal payloads →
  supabase h (requests w) (Insert (VArr payloads) None) = Normal r1 →
  exn_truthy (error r1) = false →
  supabase h (Insert (VArr payloads) None :: requests w) fetchAll = Normal r2 →
  exn_truthy (error r2) = false →
  data r2 = VArr rows →
  mapM_c (mapDbExperienceToModel h) rows = Normal mapped →
  importExperiences h jsonString w
  = (Normal (result true "Experiences imported successfully"),
     with_experiences (VArr mapped)
       (with_requests (fetchAll :: Insert (VArr payloads) None :: requests w) w)).
Proof.
  intros Hparse Hpay Hr1 Herr1 Hr2 Herr2 Hdata Hmap.
  unfold importExperiences. apply try_catch_Normal.
  erewrite bind_Normal by (unfold lift; by rewrite Hparse). simpl.
  erewrite bind_Normal by (unfold lift; simpl; by rewrite Hpay).
  rewrite (await_ok h _ _ _ r1) by done.
  rewrite (await_ok h _ _ _ r2) by done.
  erewrite bind_Normal by (unfold lift; rewrite Hdata; simpl; by rewrite Hmap).
  reflexivity.
Qed.

(** X15.  When the bulk insert succeeds and the re-fetch fails, import
    reports failure, with the message of the error, although the insert
    request has been sent; the in-memory list is not touched and nothing
    is raised. *)
Theorem importExperiences_refetch_failure jsonString w items payloads r1 e :
  JSON_parse h jsonString = Normal (VArr items) →
  mapM_c insertPayload items = Normal payloads →
  supabase h (requests w) (Insert (VArr payloads) None) = Normal r1 →
  exn_truthy (error r1) = false →
  thrown_by (supabase h (Insert (VArr payloads) None :: requests w) fetchAll) = Some e →
  importExperiences h jsonString w
  = (Normal (result false ("Error importing: " ++ error_message e)),
     with_console (("Error importing experiences:", e) :: console w)
       (with_requests (fetchAll :: Insert (VArr payloads) None :: requests w) w)).
Proof.
  intros Hparse Hpay Hr1 Herr1 He.
  unfold importExperiences.
  erewrite try_catch_Throw; cycle 1.
  { erewrite bind_Normal by (unfold lift; by rewrite Hparse). simpl.
    erewrite bind_Normal by (unfold lift; simpl; by rewrite Hpay).
    rewrite (await_ok h _ _ _ r1) by done.
    apply await_thrown. exact He. }
  reflexivity.
Qed.

(** X16.  When the select succeeds, export returns the serialization, with
    an indent of two, of the mapped rows; it changes nothing but the
    request log. *)
Theorem exportExperiences_serializes w r rows mapped :
  supabase h (requests w) fetchAll = Normal r →
  exn_truthy (error r) = false →
  data r = VArr rows →
  mapM_c (mapDbExperienceToModel h) rows = Normal mapped →
  exportExperiences h w
  = (Normal (JSON_stringify h (VArr mapped) (Some 2)),
     with_requests (fetchAll :: requests w) w).
Proof.
  intros Hr Herr Hdata Hmap. unfold exportExperiences. apply try_catch_Normal.
  rewrite (await_ok h _ _ _ r) by done.
  erewrite bind_Normal by (unfold lift; rewrite Hdata; simpl; by rewrite Hmap).
  reflexivity.
Qed.

(** X17.  When the select fails, export raises that very error after
    logging it and showing the toast 'Failed to export experiences'; no
    text is produced. *)
Theorem exportExperiences_reraises w e :
  thrown_by (supabase h (requests w) fetchAll) = Some e →
  exportExperiences h w
  = (Throw e,
     with_toasts ((ToastError, "Failed to export experiences") :: toasts w)
       (with_console (("Error exporting experiences:", e) :: console w)
          (with_requests (fetchAll :: requests w) w))).
Proof.
  intros He. unfold exportExperiences.
  erewrite try_catch_Throw; cycle 1.
  { apply await_thrown. exact He. }
  reflexivity.
Qed.

End ImportExport.

Lemma importExperiences_replaces_list_witness :
  let h := testHost true [sampleRow] in
  let ok := {| data := VNull; error := no_error |} in
  let r2 := {| data := VArr [sampleRow]; error := no_error |} in
  (JSON_parse h "[{},{},{}]" = Normal (VArr [VObj []; VObj []; VObj []]) ∧
   (∃ payloads, mapM_c insertPayload [VObj []; VObj []; VObj []] = Normal payloads ∧
      supabase h (requests emptyWorld) (Insert (VArr payloads) None) = Normal ok ∧
      supabase h (Insert (VArr payloads) None :: requests emptyWorld) fetchAll = Normal r2) ∧
   exn_truthy (error ok) = false ∧ exn_truthy (error r2) = false ∧
   data r2 = VArr [sampleRow] ∧
   mapM_c (mapDbExperienceToModel h) [sampleRow] = Normal [sampleExperience]) ∧
  (importExperiences h "[{},{},{}]" emptyWorld).1
  = Normal (result true "Experiences imported successfully") ∧
  state_experiences (importExperiences h "[{},{},{}]" emptyWorld).2
  = VArr [sampleExperience].
Proof.
  intros h ok r2.
  split; [split; [reflexivity|]; split; [eexists; by repeat split|by repeat split]|].
  erewrite (importExperiences_replaces_list h "[{},{},{}]" emptyWorld) by reflexivity.
  by split.
Defined.

Lemma importExperiences_refetch_failure_witness :
  let h := hostWith insert_only_remote true (VArr []) in
  let ok := {| data := VNull; error := no_error |} in
  let e := ThrownValue (VObj [("message", VStr "TypeError: Failed to fetch")]) in
  (JSON_parse h "[]" = Normal (VArr []) ∧
   mapM_c insertPayload [] = Normal [] ∧
   supabase h (requests loadedWorld) (Insert (VArr []) None) = Normal ok ∧
   exn_truthy (error ok) = false ∧
   thrown_by (supabase h (Insert (VArr []) None :: requests loadedWorld) fetchAll)
   = Some e) ∧
  (importExperiences h "[]" loadedWorld).1
  = Normal (result false "Error importing: Unknown error") ∧
  requests (importExperiences h "[]" loadedWorld).2 = [fetchAll; Insert (VArr []) None] ∧
  state_experiences (importExperiences h "[]" loadedWorld).2
  = VArr [sampleExperience; otherExperience].
Proof.
  intros h ok e. split; [by repeat split|].
  erewrite (importExperiences_refetch_failure h "[]" loadedWorld) by reflexivity.
  by repeat split.
Defined.

Lemma exportExperiences_serializes_witness :
  let h := testHost true [] in
  let r := {| data := VArr []; error := no_error |} in
  (supabase h (requests emptyWorld) fetchAll = Normal r ∧
   exn_truthy (error r) = false ∧ data r = VArr [] ∧
   mapM_c (mapDbExperienceToModel h) [] = Normal []) ∧
  (exportExperiences h emptyWorld).1 = Normal "[]".
Proof.
  intros h r. split; [by repeat split|].
  by erewrite (exportExperiences_serializes h emptyWorld) by reflexivity.
Defined.

Lemma exportExperiences_reraises_witness :
  let h := testHost false [] in
  let e := ThrownValue (VObj [("message", VStr "TypeError: Failed to fetch")]) in
  thrown_by (supabase h (requests emptyWorld) fetchAll) = Some e ∧
  (exportExperiences h emptyWorld).1 = Throw e ∧
  toasts (exportExperiences h emptyWorld).2
  = [(ToastError, "Failed to export experiences")].
Proof.
  intros h e. split; [reflexivity|].
  erewrite (exportExperiences_reraises h emptyWorld) by reflexivity.
  by split.
Defined.

(** ** The standalone read accessors *)

Section Reads.
Context (h : Host).

(** What a read accessor does once its remote call has failed: log, then
    read the fallback list and search or filter it. *)
Lemma fallback_after_failure {A} message e (k : JsVal → Completion A) w :
  (console_error message e;;
   localExperiences ← getSavedExperiences h; lift (k localExperiences)) w
  = (k (fallback_list h w),
     (getSavedExperiences h (with_console ((message, e) :: console w) w)).2).
Proof.
  erewrite bind_Normal by reflexivity.
  set (w1 := with_console _ w).
  destruct (getSavedExperiences_run h w1) as (w2 & Hrun & Hq).
  erewrite bind_Normal by exact Hrun. rewrite Hrun.
  unfold lift. by rewrite (fallback_list_ext h w w1).
Qed.

Lemma getAllExperiences_total_aux w :
  ∃ v w', getAllExperiences h w = (Normal v, w') ∧
    (failed (supabase h (requests w) fetchAll) = true → v = fallback_list h w).
Proof.
  unfold getAllExperiences.
  assert (∀ e w1, ls_denied w1 = ls_denied w → ls_items w1 = ls_items w →
            ∃ w',
              (console_error "Error loading experiences:" e;; getSavedExperiences h) w1
              = (Normal (fallback_list h w), w')) as Hcatch.
  { intros e w1 Hd Hi. erewrite bind_Normal by reflexivity.
    set (w2 := with_console _ w1).
    destruct (getSavedExperiences_run h w2) as (w3 & -> & Hq).
    exists w3. by rewrite (fallback_list_ext h w w2). }
  unfold try_catch, await, throw_if, throw, lift, mbind at 1 2, M_bind at 1 2.
  unfold failed, fetchAll.
  destruct (supabase h (requests w) (Select COLUMNS NoFilter Rows)) as [r|e]; simpl.
  - destruct (exn_truthy (error r)); simpl.
    + edestruct (Hcatch (error r)) as (w' & ->); [done..|]. eauto.
    + destruct (js_map (mapDbExperienceToModel h) (data r)); simpl.
      * eexists _, _. by split.
      * edestruct (Hcatch e) as (w' & ->); [done..|]. eexists _, _. by split.
  - edestruct (Hcatch e) as (w' & ->); [done..|]. eauto.
Qed.

(** X18.  [getAllExperiences] never raises.  When the select succeeds it
    returns the mapped rows; when the remote call fails it returns the
    fallback list as it is, array or not.  It issues one request and
    leaves the store and the manager's list alone. *)
Theorem getAllExperiences_never_raises w :
  ∃ v w',
    getAllExperiences h w = (Normal v, w') ∧
    requests w' = fetchAll :: requests w ∧
    ls_items w' = ls_items w ∧ state_experiences w' = state_experiences w ∧
    (failed (supabase h (requests w) fetchAll) = true → v = fallback_list h w) ∧
    (∀ r rows mapped,
       supabase h (requests w) fetchAll = Normal r → exn_truthy (error r) = false →
       data r = VArr rows → mapM_c (mapDbExperienceToModel h) rows = Normal mapped →
       v = VArr mapped).
Proof.
  unfold getAllExperiences.
  set (w1 := with_requests (Select COLUMNS NoFilter Rows :: requests w) w).
  assert (∀ e, ∃ w',
            (console_error "Error loading experiences:" e;; getSavedExperiences h) w1
            = (Normal (fallback_list h w), w') ∧
            requests w' = fetchAll :: requests w ∧ ls_items w' = ls_items w ∧
            state_experiences w' = state_experiences w) as Hcatch.
  { intros e. erewrite bind_Normal by reflexivity.
    set (w2 := with_console _ w1).
    destruct (getSavedExperiences_run h w2) as (w3 & -> & Hq).
    exists w3. split; [by rewrite (fallback_list_ext h w w2)|].
    by destruct Hq as (-> & _ & -> & _ & -> & _). }
  subst w1.
  destruct (thrown_by (supabase h (requests w) fetchAll)) as [e|] eqn:He.
  - erewrite try_catch_Throw by (apply await_thrown; exact He).
    destruct (Hcatch e) as (w' & -> & Hreq & Hitems & Hstate).
    eexists _, _. do 4 (split; [done|]). split; [done|].
    intros r rows mapped Hr Herr. rewrite Hr in He. simpl in He. by rewrite Herr in He.
  - pose proof He as (r & Hr & Herr)%thrown_by_None.
    assert (failed (supabase h (requests w) fetchAll) = true → False) as Hnot.
    { intros Hf%thrown_by_failed. rewrite He in Hf. by destruct Hf. }
    unfold try_catch. rewrite (await_ok h _ _ _ r) by done.
    unfold lift.
    destruct (js_map (mapDbExperienceToModel h) (data r)) as [v|e] eqn:Hmap.
    + eexists _, _. do 4 (split; [done|]). split; [by intros ?%Hnot|].
      intros r' rows mapped Hr' _ Hdata Hrows. rewrite Hr in Hr'.
      injection Hr' as <-. rewrite Hdata in Hmap. simpl in Hmap.
      rewrite Hrows in Hmap. simpl in Hmap. by injection Hmap as <-.
    + destruct (Hcatch e) as (w' & -> & Hreq & Hitems & Hstate).
      eexists _, _. do 4 (split; [done|]). split; [by intros ?%Hnot|].
      intros r' rows mapped Hr' _ Hdata Hrows. rewrite Hr in Hr'.
      injection Hr' as <-. rewrite Hdata in Hmap. simpl in Hmap.
      by rewrite Hrows in Hmap.
Qed.

End Reads.

Section ReadFallbacks.
Context (h : Host).

Lemma fallback_read {A} (k : JsVal → Completion A) w :
  (localExperiences ← getSavedExperiences h; lift (k localExperiences)) w
  = (k (fallback_list h w), (getSavedExperiences h w).2).
Proof.
  destruct (getSavedExperiences_run h w) as (w2 & Hrun & Hq).
  erewrite bind_Normal by exact Hrun. by rewrite Hrun.
Qed.

Lemma filter_flagged flag l :
  records l →
  filterM_c (λ exp, v ← get exp flag; Normal (ToBoolean v)) l
  = Normal (List.filter (is_flagged flag) l).
Proof.
  intros Hl. apply filterM_c_pure. eapply Forall_impl; [exact Hl|].
  intros exp Hexp. simpl in Hexp. by rewrite (get_ok _ _ Hexp).
Qed.

(** X19.  When their remote call fails, [getTrendingExperiences] and
    [getFeaturedExperiences] return the records of the fallback list whose
    flag is truthy, in their order, and raise nothing. *)
Theorem flagged_from_fallback w l :
  fallback_list h w = VArr l →
  records l →
  (failed (supabase h (requests w) (selectFlag "trending")) = true →
   (getTrendingExperiences h w).1 = Normal (VArr (List.filter (is_flagged "trending") l))) ∧
  (failed (supabase h (requests w) (selectFlag "featured")) = true →
   (getFeaturedExperiences h w).1 = Normal (VArr (List.filter (is_flagged "featured") l))).
Proof.
  intros Hfb Hl. split; intros [e He]%thrown_by_failed.
  - unfold getTrendingExperiences.
    erewrite try_catch_Throw by (apply await_thrown; exact He).
    rewrite fallback_after_failure, (fallback_list_ext h w) by done.
    rewrite Hfb. simpl. by rewrite (filter_flagged "trending" l Hl).
  - unfold getFeaturedExperiences.
    erewrite try_catch_Throw by (apply await_thrown; exact He).
    rewrite fallback_after_failure, (fallback_list_ext h w) by done.
    rewrite Hfb. simpl. by rewrite (filter_flagged "featured" l Hl).
Qed.

(** X20.  When the fallback value is not an array and the remote call
    fails, the reads that search or filter it raise a TypeError to the
    caller, whereas [getAllExperiences] returns that value. *)
Theorem corrupt_fallback_raises w id :
  isArray (fallback_list h w) = false →
  (failed (supabase h (requests w) (selectFlag "trending")) = true →
   ∃ m, (getTrendingExperiences h w).1 = Throw (TypeError m)) ∧
  (failed (supabase h (requests w) (selectFlag "featured")) = true →
   ∃ m, (getFeaturedExperiences h w).1 = Throw (TypeError m)) ∧
  (failed (supabase h (requests w) (selectById id)) = true →
   ∃ m, (getExperienceById h id w).1 = Throw (TypeError m)) ∧
  (failed (supabase h (requests w) fetchAll) = true →
   (getAllExperiences h w).1 = Normal (fallback_list h w)).
Proof.
  intros Hna.
  assert (∀ method, ∃ m, not_a_function (fallback_list h w) method = TypeError m) as Hnf.
  { intros method. unfold not_a_function. destruct (is_nullish _); eauto. }
  split; [|split; [|split]].
  - intros [e He]%thrown_by_failed. unfold getTrendingExperiences.
    erewrite try_catch_Throw by (apply await_thrown; exact He).
    rewrite fallback_after_failure, (fallback_list_ext h w) by done. simpl.
    destruct (Hnf "filter") as [m Hm]. exists m. rewrite <- Hm.
    by destruct (fallback_list h w).
  - intros [e He]%thrown_by_failed. unfold getFeaturedExperiences.
    erewrite try_catch_Throw by (apply await_thrown; exact He).
    rewrite fallback_after_failure, (fallback_list_ext h w) by done. simpl.
    destruct (Hnf "filter") as [m Hm]. exists m. rewrite <- Hm.
    by destruct (fallback_list h w).
  - intros [e He]%thrown_by_failed. unfold getExperienceById.
    erewrite try_catch_Throw by (apply await_thrown; exact He).
    rewrite fallback_after_failure, (fallback_list_ext h w) by done. simpl.
    destruct (Hnf "find") as [m Hm]. exists m. rewrite <- Hm.
    by destruct (fallback_list h w).
  - intros Hf.
    destruct (getAllExperiences_total_aux h w) as (v & w' & -> & Hv). simpl.
    by rewrite (Hv Hf).
Qed.

End ReadFallbacks.

Lemma flagged_from_fallback_witness :
  let h := hostWith (test_remote false []) true (VArr [sampleExperience; otherExperience]) in
  (fallback_list h emptyWorld = VArr [sampleExperience; otherExperience] ∧
   records [sampleExperience; otherExperience] ∧
   failed (supabase h (requests emptyWorld) (selectFlag "trending")) = true ∧
   failed (supabase h (requests emptyWorld) (selectFlag "featured")) = true) ∧
  (getTrendingExperiences h emptyWorld).1 = Normal (VArr [sampleExperience]) ∧
  (getFeaturedExperiences h emptyWorld).1 = Normal (VArr []).
Proof.
  intros h.
  assert (records [sampleExperience; otherExperience]) as Hl by (by repeat constructor).
  split; [by repeat split|].
  destruct (flagged_from_fallback h emptyWorld [sampleExperience; otherExperience]
              eq_refl Hl) as [Htrending Hfeatured].
  split; [exact (Htrending eq_refl)|exact (Hfeatured eq_refl)].
Defined.

Lemma corrupt_fallback_raises_witness :
  let h := testHost false [] in
  (isArray (fallback_list h corruptWorld) = false ∧
   failed (supabase h (requests corruptWorld) (selectById "e1")) = true ∧
   failed (supabase h (requests corruptWorld) fetchAll) = true) ∧
  (∃ m, (getExperienceById h "e1" corruptWorld).1 = Throw (TypeError m)) ∧
  (getAllExperiences h corruptWorld).1 = Normal (VObj []).
Proof.
  intros h. split; [by repeat split|].
  destruct (corrupt_fallback_raises h corruptWorld "e1" eq_refl)
    as (_ & _ & Hid & Hall).
  split; [exact (Hid eq_refl)|exact (Hall eq_refl)].
Defined.

Section FetchByIdFound.
Context (h : Host).

(** X21.  When the store answers the by-id query with a row that the
    mapper accepts, [getExperienceById] returns the mapping of that row,
    whatever its id: the answer is not compared with the identifier asked
    for. *)
Theorem getExperienceById_found id w r :
  supabase h (requests w) (selectById id) = Normal r →
  exn_truthy (error r) = false →
  ToBoolean (data r) = true →
  mappable (data r) = true →
  ∃ e, mapDbExperienceToModel h (data r) = Normal e ∧
       getExperienceById h id w
       = (Normal e, with_requests (selectById id :: requests w) w) ∧
       prop e "id" = prop (data r) "id".
Proof.
  intros Hr Herr Hdata Hrow.
  destruct (mapDb_mappable h (data r) Hrow) as (lat & lon & _ & _ & He).
  eexists. split; [exact He|]. split; [|done].
  unfold getExperienceById. apply try_catch_Normal.
  rewrite (await_ok h _ _ _ r) by done.
  rewrite Hdata. simpl. unfold lift. by rewrite He.
Qed.

(** Reading the fallback only adds to the console. *)
Lemma getSavedExperiences_console w :
  ∃ extra, console (getSavedExperiences h w).2 = (extra ++ console w)%list.
Proof.
  unfold getSavedExperiences, try_catch, localStorage_getItem,
    console_error, lift, mbind, M_bind, mret, M_ret.
  destruct (ls_denied w); simpl; [by eexists [_]|].
  destruct (ls_items w !! "experiences") as [s|]; simpl; [|by exists []].
  destruct (String.eqb s ""); simpl; [by exists []|].
  destruct (JSON_parse h s); simpl; [by exists []|by eexists [_]].
Qed.

(** X29.  When the store answers the by-id query with a row that the
    mapper rejects, the TypeError is handled like a failed request: the
    result is the first record of the fallback list that has the
    identifier, or null when there is none. *)
Theorem getExperienceById_unmapped_answer id w r l :
  supabase h (requests w) (selectById id) = Normal r →
  exn_truthy (error r) = false →
  ToBoolean (data r) = true →
  mappable (data r) = false →
  fallback_list h w = VArr l →
  records l →
  (getExperienceById h id w).1 = Normal (default VNull (List.find (has_id id) l)) ∧
  requests (getExperienceById h id w).2 = selectById id :: requests w ∧
  ("Error loading experience by ID:", cannot_convert)
  ∈ console (getExperienceById h id w).2.
Proof.
  intros Hr Herr Hdata Hrow Hfb Hl.
  assert (mapper_error (data r) = cannot_convert) as Herror.
  { unfold mapper_error. by destruct (data r). }
  unfold getExperienceById.
  erewrite try_catch_Throw; cycle 1.
  { rewrite (await_ok h _ _ _ r) by done.
    rewrite Hdata. simpl. unfold lift.
    by rewrite (mapDb_unmappable h _ Hrow), Herror. }
  rewrite fallback_after_failure, (fallback_list_ext h w) by done.
  rewrite Hfb. simpl.
  rewrite (findM_c_pure _ (has_id id)); cycle 1.
  { eapply Forall_impl; [exact Hl|]. intros exp Hexp. simpl in Hexp.
    by rewrite (get_ok _ _ Hexp). }
  simpl. split; [|split].
  - f_equal. destruct (List.find (has_id id) l) as [x|] eqn:Hfind; [|done].
    apply List.find_some in Hfind as [_ Hx].
    by destruct (matching_id_is_object x id Hx) as [ps ->].
  - set (w1 := with_console _ _).
    destruct (getSavedExperiences_run h w1) as (w2 & Hrun & Hq).
    rewrite Hrun. simpl. by destruct Hq as (-> & _).
  - set (w1 := with_console _ _).
    destruct (getSavedExperiences_console w1) as [extra ->].
    apply elem_of_app. right. apply list_elem_of_here.
Qed.

(** X22.  When the remote call fails, [getExperienceById] returns the
    first record of the fallback list that has the identifier, as it is
    stored; what follows it in the list is not looked at. *)
Theorem getExperienceById_from_fallback id w before x after :
  failed (supabase h (requests w) (selectById id)) = true →
  fallback_list h w = VArr (before ++ x :: after) →
  Forall (λ exp, is_nullish exp = false ∧ strict_eq_str (prop exp "id") id = false)
    before →
  has_id id x = true →
  (getExperienceById h id w).1 = Normal x.
Proof.
  intros [e He]%thrown_by_failed Hfb Hbefore Hx.
  assert (∃ ps, x = VObj ps) as [ps ->] by (by apply (matching_id_is_object _ id)).
  unfold getExperienceById.
  erewrite try_catch_Throw by (apply await_thrown; exact He).
  rewrite fallback_after_failure, (fallback_list_ext h w) by done.
  rewrite Hfb. simpl.
  assert (findM_c (λ exp, exp_id ← get exp "id"; Normal (strict_eq_str exp_id id))
            (before ++ VObj ps :: after) = Normal (Some (VObj ps))) as ->.
  { clear -Hbefore Hx. induction Hbefore as [|exp l [Hn Hid] _ IH]; simpl.
    - unfold has_id in Hx. simpl in Hx. by rewrite Hx.
    - rewrite (get_ok _ _ Hn). simpl. by rewrite Hid. }
  done.
Qed.

End FetchByIdFound.

Lemma getExperienceById_found_witness :
  let h := testHost true [sampleRow] in
  let r := {| data := sampleRow; error := no_error |} in
  (supabase h (requests emptyWorld) (selectById "e1") = Normal r ∧
   exn_truthy (error r) = false ∧ ToBoolean (data r) = true ∧
   mappable (data r) = true) ∧
  (getExperienceById h "e1" emptyWorld).1 = Normal sampleExperience.
Proof.
  intros h r. split; [by repeat split|].
  destruct (getExperienceById_found h "e1" emptyWorld r eq_refl eq_refl eq_refl eq_refl)
    as (e & He & -> & _).
  simpl. by injection He as <-.
Defined.

Lemma getExperienceById_unmapped_answer_witness :
  let h := hostWith (test_remote true [opaqueRow]) true
             (VArr [sampleExperience; otherExperience]) in
  let r := {| data := opaqueRow; error := no_error |} in
  (supabase h (requests emptyWorld) (selectById "e2") = Normal r ∧
   exn_truthy (error r) = false ∧ ToBoolean (data r) = true ∧
   mappable (data r) = false ∧
   fallback_list h emptyWorld = VArr [sampleExperience; otherExperience] ∧
   records [sampleExperience; otherExperience]) ∧
  (getExperienceById h "e2" emptyWorld).1 = Normal otherExperience.
Proof.
  intros h r.
  assert (records [sampleExperience; otherExperience]) as Hl by (by repeat constructor).
  split; [by repeat split|].
  destruct (getExperienceById_unmapped_answer h "e2" emptyWorld r
              [sampleExperience; otherExperience] eq_refl eq_refl eq_refl eq_refl
              eq_refl Hl) as [Hrun _].
  exact Hrun.
Defined.

Lemma getExperienceById_from_fallback_witness :
  let h := hostWith (test_remote false []) true (VArr [sampleExperience; otherExperience]) in
  (failed (supabase h (requests emptyWorld) (selectById "e2")) = true ∧
   fallback_list h emptyWorld = VArr ([sampleExperience] ++ otherExperience :: []) ∧
   Forall (λ exp, is_nullish exp = false ∧ strict_eq_str (prop exp "id") "e2" = false)
     [sampleExperience] ∧
   has_id "e2" otherExperience = true) ∧
  (getExperienceById h "e2" emptyWorld).1 = Normal otherExperience.
Proof.
  intros h.
  assert (Forall (λ exp, is_nullish exp = false
                         ∧ strict_eq_str (prop exp "id") "e2" = false)
            [sampleExperience]) as Hbefore by (by repeat constructor).
  split; [by repeat split|].
  apply (getExperienceById_from_fallback h "e2" emptyWorld [sampleExperience]
           otherExperience [] eq_refl eq_refl Hbefore eq_refl).
Defined.

(** ** Fetch by category, for a known category *)

Section ByCategory.
Context (h : Host).

Lemma category_matches_pure name exp :
  is_nullish exp = false → category_typed exp = true →
  category_matches h name exp = Normal (in_category h name exp).
Proof.
  intros Hn Ht. unfold category_matches, in_category, category_typed in *.
  rewrite (get_ok _ _ Hn). simpl. by destruct (prop exp "category").
Qed.

Lemma filter_in_category name l :
  Forall (λ exp, is_nullish exp = false ∧ category_typed exp = true) l →
  filterM_c (category_matches h name) l = Normal (List.filter (in_category h name) l).
Proof.
  intros Hl. apply filterM_c_pure. eapply Forall_impl; [exact Hl|].
  intros exp [Hn Ht]. by apply category_matches_pure.
Qed.

(** X23.  For a known category, when the remote call fails, or answers no
    data or an empty array, the result is the records of the fallback
    list whose category equals the category's name up to case, in their
    order. *)
Theorem getExperiencesByCategory_from_fallback categoryId c w l :
  find_category h categoryId = Some c →
  (failed (supabase h (requests w) (selectCategory h (cat_name c))) = true
   ∨ ∃ r, supabase h (requests w) (selectCategory h (cat_name c)) = Normal r ∧
          exn_truthy (error r) = false ∧
          (ToBoolean (data r) = false ∨ data r = VArr [])) →
  fallback_list h w = VArr l →
  Forall (λ exp, is_nullish exp = false ∧ category_typed exp = true) l →
  (getExperiencesByCategory h categoryId w).1
  = Normal (VArr (List.filter (in_category h (cat_name c)) l)).
Proof.
  intros Hc Hcase Hfb Hl. unfold getExperiencesByCategory. rewrite Hc.
  destruct Hcase as [[e He]%thrown_by_failed|(r & Hr & Herr & Hdata)].
  - erewrite try_catch_Throw by (apply await_thrown; exact He).
    rewrite fallback_after_failure, (fallback_list_ext h w) by done.
    rewrite Hfb. simpl. by rewrite (filter_in_category _ _ Hl).
  - erewrite try_catch_Normal; [reflexivity|].
    rewrite (await_ok h _ _ _ r) by done.
    erewrite bind_Normal with (a := true);
      [|unfold lift; destruct Hdata as [->| ->]; [done|done]].
    rewrite fallback_read, (fallback_list_ext h w) by done.
    rewrite Hfb. simpl. rewrite (filter_in_category _ _ Hl). simpl.
    reflexivity.
Qed.

(** X24.  For a known category, when the store answers at least one row,
    the result is the mapping of the answered rows; one request is issued,
    a case-insensitive match of the category column against the name in
    lower case, and the fallback store is not read. *)
Theorem getExperiencesByCategory_rows categoryId c w r row rows mapped :
  find_category h categoryId = Some c →
  supabase h (requests w) (selectCategory h (cat_name c)) = Normal r →
  exn_truthy (error r) = false →
  data r = VArr (row :: rows) →
  mapM_c (mapDbExperienceToModel h) (row :: rows) = Normal mapped →
  getExperiencesByCategory h categoryId w
  = (Normal (VArr mapped),
     with_requests (selectCategory h (cat_name c) :: requests w) w).
Proof.
  intros Hc Hr Herr Hdata Hmap. unfold getExperiencesByCategory. rewrite Hc.
  apply try_catch_Normal.
  rewrite (await_ok h _ _ _ r) by done.
  erewrite bind_Normal with (a := false) by (unfold lift; by rewrite Hdata).
  unfold lift. rewrite Hdata.
  change (js_map (mapDbExperienceToModel h) (VArr (row :: rows)))
    with (VArr <$> mapM_c (mapDbExperienceToModel h) (row :: rows)).
  by rewrite Hmap.
Qed.

End ByCategory.

Lemma getExperiencesByCategory_from_fallback_witness :
  let h := hostWith (test_remote false []) true (VArr [sampleExperience; otherExperience]) in
  let c := {| cat_id := "adventure"; cat_name := "Adventure" |} in
  (find_category h "adventure" = Some c ∧
   failed (supabase h (requests emptyWorld) (selectCategory h (cat_name c))) = true ∧
   fallback_list h emptyWorld = VArr [sampleExperience; otherExperience] ∧
   Forall (λ exp, is_nullish exp = false ∧ category_typed exp = true)
     [sampleExperience; otherExperience]) ∧
  (getExperiencesByCategory h "adventure" emptyWorld).1 = Normal (VArr [sampleExperience]).
Proof.
  intros h c.
  assert (Forall (λ exp, is_nullish exp = false ∧ category_typed exp = true)
            [sampleExperience; otherExperience]) as Hl by (by repeat constructor).
  split; [by repeat split|].
  apply (getExperiencesByCategory_from_fallback h "adventure" c emptyWorld
           [sampleExperience; otherExperience] eq_refl (or_introl eq_refl) eq_refl Hl).
Defined.

Lemma getExperiencesByCategory_rows_witness :
  let h := hostWith (answering_remote [sampleRow]) true (VArr []) in
  let c := {| cat_id := "adventure"; cat_name := "Adventure" |} in
  let r := {| data := VArr [sampleRow]; error := no_error |} in
  (find_category h "adventure" = Some c ∧
   supabase h (requests emptyWorld) (selectCategory h (cat_name c)) = Normal r ∧
   exn_truthy (error r) = false ∧ data r = VArr [sampleRow] ∧
   mapM_c (mapDbExperienceToModel h) [sampleRow] = Normal [sampleExperience]) ∧
  (getExperiencesByCategory h "adventure" emptyWorld).1 = Normal (VArr [sampleExperience]) ∧
  ls_log (getExperiencesByCategory h "adventure" emptyWorld).2 = [].
Proof.
  intros h c r. split; [by repeat split|].
  rewrite (getExperiencesByCategory_rows h "adventure" c emptyWorld r sampleRow []
             [sampleExperience] eq_refl eq_refl eq_refl eq_refl eq_refl).
  by split.
Defined.

(** ** How the operations compose *)

Section Composition.
Context (h : Host).

Lemma fetchExperiences_success_run w r rows mapped :
  supabase h (requests w) fetchAll = Normal r →
  exn_truthy (error r) = false →
  data r = VArr rows →
  mapM_c (mapDbExperienceToModel h) rows = Normal mapped →
  ls_denied w = false →
  quota_ok h (<["experiences" := JSON_stringify h (VArr mapped) None]> (ls_items w)) = true →
  fetchExperiences h w
  = (Normal (),
     with_isLoading false
       (with_storage
          (<["experiences" := JSON_stringify h (VArr mapped) None]> (ls_items w))
          (SetItem "experiences" (JSON_stringify h (VArr mapped) None) :: ls_log w)
          (with_experiences (VArr mapped)
             (with_requests (fetchAll :: requests w)
                (with_error None (with_isLoading true w)))))).
Proof.
  intros Hr Herr Hdata Hmap Hden Hquota. unfold fetchExperiences.
  erewrite bind_Normal by reflexivity. erewrite bind_Normal by reflexivity.
  eapply try_finally_run; [|reflexivity].
  apply try_catch_Normal.
  rewrite (await_ok h _ _ _ r) by done.
  rewrite Hdata. simpl. rewrite Hmap. simpl.
  erewrite bind_Normal by reflexivity. erewrite bind_Normal by reflexivity.
  unfold localStorage_setItem. simpl. by rewrite Hden, Hquota.
Qed.

(** X25.  What the initial fetch caches is what a later read falls back
    on: after a successful initial fetch whose write was accepted, a
    [getAllExperiences] whose remote call fails returns the value that the
    host parses from the cached text. *)
Theorem cached_list_is_read_back w r rows mapped v :
  supabase h (requests w) fetchAll = Normal r →
  exn_truthy (error r) = false →
  data r = VArr rows →
  mapM_c (mapDbExperienceToModel h) rows = Normal mapped →
  ls_denied w = false →
  quota_ok h (<["experiences" := JSON_stringify h (VArr mapped) None]> (ls_items w)) = true →
  JSON_stringify h (VArr mapped) None ≠ "" →
  JSON_parse h (JSON_stringify h (VArr mapped) None) = Normal v →
  failed (supabase h (fetchAll :: requests w) fetchAll) = true →
  (getAllExperiences h (fetchExperiences h w).2).1 = Normal v.
Proof.
  intros Hr Herr Hdata Hmap Hden Hquota Htext Hparse Hfail.
  rewrite (fetchExperiences_success_run w r rows mapped) by done.
  set (w1 := (_, _).2).
  destruct (getAllExperiences_total_aux h w1) as (v' & w' & -> & Hv). simpl.
  rewrite (Hv Hfail). unfold fallback_list, w1. simpl.
  rewrite Hden, lookup_insert_eq.
  destruct (String.eqb _ "") eqn:E; [by apply eqb_true_iff in E|].
  by rewrite Hparse.
Qed.

Lemma addExperience_run experience payload w r l :
  insertPayload experience = Normal payload →
  supabase h (requests w) (insertOne payload) = Normal r →
  exn_truthy (error r) = false →
  mappable (data r) = true →
  state_experiences w = VArr l →
  ∃ new, mapDbExperienceToModel h (data r) = Normal new ∧
    is_nullish new = false ∧
    prop new "id" = prop (data r) "id" ∧
    addExperience h experience w
    = (Normal new,
       with_experiences (VArr (l ++ [new]))
         (with_requests (insertOne payload :: requests w) w)).
Proof.
  intros Hpayload Hr Herr Hrow Hstate.
  destruct (mapDb_mappable h (data r) Hrow) as (lat & lon & _ & _ & Hnew).
  eexists. split; [exact Hnew|]. split; [done|]. split; [done|].
  unfold addExperience. apply try_catch_Normal.
  erewrite bind_Normal by (unfold lift; by rewrite Hpayload).
  rewrite (await_ok h _ _ _ r) by done.
  erewrite bind_Normal by (unfold lift; by rewrite Hnew).
  erewrite bind_Normal; [reflexivity|].
  unfold updateExperiences. simpl. by rewrite Hstate.
Qed.

(** X26.  Adding an experience and then deleting the id that the store
    gave it brings the in-memory list back to what it was, provided no
    element had that id before. *)
Theorem add_then_delete experience payload w r l i r' :
  insertPayload experience = Normal payload →
  supabase h (requests w) (insertOne payload) = Normal r →
  exn_truthy (error r) = false →
  prop (data r) "id" = VStr i →
  state_experiences w = VArr l →
  lacks_id i (VArr l) →
  supabase h (insertOne payload :: requests w) (Delete (byId i)) = Normal r' →
  exn_truthy (error r') = false →
  state_experiences (deleteExperience h i (addExperience h experience w).2).2 = VArr l.
Proof.
  intros Hpayload Hr Herr Hid Hstate (l' & [= <-] & Hall) Hr' Herr'.
  assert (records l) as Hl.
  { eapply Forall_impl; [exact Hall|]. by intros exp [? _]. }
  destruct (mappable (data r)) eqn:Hrow.
  - destruct (addExperience_run experience payload w r l Hpayload Hr Herr Hrow Hstate)
      as (new & Hnew & Hrec & Hnewid & ->).
    assert (records (l ++ [new])) as Hrecs.
    { apply Forall_app. split; [exact Hl|]. by repeat constructor. }
    unfold deleteExperience.
    erewrite try_catch_Normal; cycle 1.
    { rewrite (await_ok h _ _ _ r') by done.
      unfold updateExperiences. simpl.
      rewrite (filter_without_id i _ Hrecs). simpl. reflexivity. }
    simpl. f_equal. rewrite List.filter_app, (filter_lacking i l Hall). simpl.
    unfold has_id. rewrite Hnewid, Hid. simpl. rewrite String.eqb_refl. simpl.
    apply app_nil_r.
  - rewrite (addExperience_unmapped_aux h experience payload w r Hpayload Hr Herr Hrow).
    unfold deleteExperience.
    erewrite try_catch_Normal; cycle 1.
    { rewrite (await_ok h _ _ _ r') by done.
      unfold updateExperiences. simpl. rewrite Hstate. simpl.
      rewrite (filter_without_id i _ Hl). simpl. reflexivity. }
    simpl. f_equal. apply (filter_lacking i l Hall).
Qed.

End Composition.

Lemma cached_list_is_read_back_witness :
  let h := hostWith (flaky_remote []) true (VArr [sampleExperience]) in
  let r := {| data := VArr []; error := no_error |} in
  (supabase h (requests cachedWorld) fetchAll = Normal r ∧
   exn_truthy (error r) = false ∧ data r = VArr [] ∧
   mapM_c (mapDbExperienceToModel h) [] = Normal [] ∧
   ls_denied cachedWorld = false ∧
   quota_ok h (<["experiences" := JSON_stringify h (VArr []) None]> (ls_items cachedWorld))
   = true ∧
   JSON_stringify h (VArr []) None ≠ "" ∧
   JSON_parse h (JSON_stringify h (VArr []) None) = Normal (VArr []) ∧
   failed (supabase h (fetchAll :: requests cachedWorld) fetchAll) = true) ∧
  (getAllExperiences h (fetchExperiences h cachedWorld).2).1 = Normal (VArr []).
Proof.
  intros h r. split; [by repeat split|].
  apply (cached_list_is_read_back h cachedWorld r [] [] (VArr []));
    try reflexivity. discriminate.
Defined.

Lemma add_then_delete_witness :
  let h := hostWith (accepting_remote []) true (VArr []) in
  let ok := {| data := VNull; error := no_error |} in
  ∃ payload r,
    (insertPayload draftExperience = Normal payload ∧
     supabase h (requests loadedWorld) (insertOne payload) = Normal r ∧
     exn_truthy (error r) = false ∧
     prop (data r) "id" = VStr "srv-1" ∧
     state_experiences loadedWorld = VArr [sampleExperience; otherExperience] ∧
     lacks_id "srv-1" (VArr [sampleExperience; otherExperience]) ∧
     supabase h (insertOne payload :: requests loadedWorld) (Delete (byId "srv-1"))
     = Normal ok ∧
     exn_truthy (error ok) = false) ∧
    state_experiences
      (deleteExperience h "srv-1" (addExperience h draftExperience loadedWorld).2).2
    = VArr [sampleExperience; otherExperience].
Proof.
  intros h ok.
  assert (lacks_id "srv-1" (VArr [sampleExperience; otherExperience])) as Hl.
  { eexists. split; [reflexivity|]. by repeat constructor. }
  eexists _, _. split; [split; [reflexivity|]; split; [reflexivity|]; by repeat split|].
  eapply (add_then_delete h draftExperience _ loadedWorld _
            [sampleExperience; otherExperience] "srv-1" ok);
    try reflexivity. exact Hl.
Defined.

(** ** Import of a list with a missing entry *)

Section ImportEntries.
Context (h : Host).

Lemma insertPayload_total experience :
  is_nullish experience = false → ∃ payload, insertPayload experience = Normal payload.
Proof. intros H. unfold insertPayload, get. rewrite H. simpl. eauto. Qed.

Lemma insertPayload_entries_throw items :
  Exists (λ entry, is_nullish entry = true) items →
  ∃ m, mapM_c insertPayload items = Throw (TypeError m).
Proof.
  induction items as [|entry items IH]; intros Hex; [by apply Exists_nil in Hex|].
  destruct (is_nullish entry) eqn:Hentry.
  - destruct entry; try done; simpl; eauto.
  - apply Exists_cons in Hex as [Hex|Hex]; [congruence|].
    destruct (IH Hex) as [m Hm].
    destruct (insertPayload_total entry Hentry) as [payload Hp].
    exists m. simpl. rewrite Hp. simpl. by rewrite Hm.
Qed.

(** X27.  When the parsed array has an entry that is undefined or null,
    import sends nothing: building the rows throws a TypeError, which is
    logged and reported as a failed result carrying its message; the
    in-memory list is untouched and nothing is raised. *)
Theorem importExperiences_missing_entry jsonString w items :
  JSON_parse h jsonString = Normal (VArr items) →
  Exists (λ entry, is_nullish entry = true) items →
  ∃ m,
    importExperiences h jsonString w
    = (Normal (result false ("Error importing: " ++ m)),
       with_console (("Error importing experiences:", TypeError m) :: console w) w).
Proof.
  intros Hparse Hex. destruct (insertPayload_entries_throw items Hex) as [m Hm].
  exists m. unfold importExperiences.
  erewrite try_catch_Throw; cycle 1.
  { erewrite bind_Normal by (unfold lift; by rewrite Hparse). simpl.
    apply bind_Throw. unfold lift. simpl. by rewrite Hm. }
  reflexivity.
Qed.

End ImportEntries.

Lemma importExperiences_missing_entry_witness :
  (JSON_parse nullEntryHost "[null]" = Normal (VArr [VNull]) ∧
   Exists (λ entry, is_nullish entry = true) [VNull]) ∧
  ∃ m, (importExperiences nullEntryHost "[null]" loadedWorld).1
       = Normal (result false ("Error importing: " ++ m)) ∧
       requests (importExperiences nullEntryHost "[null]" loadedWorld).2 = [].
Proof.
  assert (Exists (λ entry, is_nullish entry = true) [VNull]) as Hex by (by constructor).
  split; [by split|].
  destruct (importExperiences_missing_entry nullEntryHost "[null]" loadedWorld [VNull]
              eq_refl Hex) as [m ->].
  exists m. by split.
Defined.
